(** * probnmn: checkpoint manager and evaluator

    A shallow embedding of [probnmn/utils/checkpointing.py]
    ([CheckpointManager]) and [probnmn/evaluators/_evaluator.py]
    ([_Evaluator]), with the properties of their specification settled
    against the embedding.

    Python objects are mutable and an exception leaves the mutations made so
    far in place.  Methods are therefore computations in a state monad whose
    outcomes, normal or exceptional, both carry the state reached.

    What the two classes delegate to PyTorch is kept abstract:
    - a state dict is a value of an arbitrary type: the state dicts of the
      object registered under the name it is stored at, which that object
      accepts in [load_state_dict]; a state dict that does not fit the
      object is a foreign entry, which strict loading rejects;
    - a state dict held in memory shares the tensors of its live object, as
      [nn.Module.state_dict] has it: it follows the in-place updates that
      training and [load_state_dict] make, while a file keeps the contents
      it was written with;
    - [torch.save] writes the dictionary it is given to the path, in a
      directory that exists, and [torch.load] reads it back;
    - a metric is a finite float, represented by its exact rational value;
    - the forward pass and the move of a batch to a device are parameters of
      the evaluator. *)

From Stdlib Require Import ZArith QArith.QArith_base Lia Ascii String.
From stdpp Require Import base option list strings pretty gmap.

Local Open Scope Z_scope.
Local Open Scope string_scope.

(** ** Python runtime: exceptions, computations, dictionaries *)

Inductive exn : Type :=
| AttributeError (attribute : string)
| KeyError (key : string)
| IndexError
| TypeError
| FileNotFoundError (path : string)
| RuntimeError
| ForwardError.

Inductive outcome (St R : Type) : Type :=
| Returned (r : R) (st : St)
| Raised (e : exn) (st : St).
Arguments Returned {St R} r st.
Arguments Raised {St R} e st.

(** The state a call leaves behind, however it ended. *)
Definition final {St R} (o : outcome St R) : St :=
  match o with Returned _ st => st | Raised _ st => st end.

Definition returns {St R} (o : outcome St R) : bool :=
  match o with Returned _ _ => true | Raised _ _ => false end.

Definition M (St R : Type) : Type := St -> outcome St R.

Definition ret {St R} (r : R) : M St R := fun st => Returned r st.
Definition raise {St R} (e : exn) : M St R := fun st => Raised e st.
Definition bind {St A B} (c : M St A) (k : A -> M St B) : M St B :=
  fun st => match c st with
            | Returned a st' => k a st'
            | Raised e st' => Raised e st'
            end.
Definition gets {St A} (f : St -> A) : M St A := fun st => Returned (f st) st.
Definition modify {St} (f : St -> St) : M St unit :=
  fun st => Returned tt (f st).
Definition when {St} (b : bool) (c : M St unit) : M St unit :=
  if b then c else ret tt.

Notation "x <- c ;; k" := (bind c (fun x => k))
  (at level 100, c at next level, right associativity).
Notation "c ;; k" := (bind c (fun _ => k))
  (at level 100, right associativity).

(** A Python [dict] keeps its keys unique and iterates in insertion order:
    an association list in which assignment to a present key replaces the
    value in place and assignment to a fresh key appends. *)
Module PyDict.
Section Dict.
Context {V : Type}.

Definition dict : Type := list (string * V).

Fixpoint get (d : dict) (k : string) : option V :=
  match d with
  | [] => None
  | (k', v) :: d' => if decide (k = k') then Some v else get d' k
  end.

(** [d[k] = v] *)
Fixpoint set (k : string) (v : V) (d : dict) : dict :=
  match d with
  | [] => [(k, v)]
  | (k', v') :: d' =>
      if decide (k = k') then (k, v) :: d' else (k', v') :: set k v d'
  end.

(** [k in d] *)
Definition contains (d : dict) (k : string) : bool :=
  match get d k with Some _ => true | None => false end.

Fixpoint remove (k : string) (d : dict) : dict :=
  match d with
  | [] => []
  | (k', v) :: d' =>
      if decide (k = k') then remove k d' else (k', v) :: remove k d'
  end.

(** [d.pop(k, default)]: the value, and the dictionary without the key. *)
Definition pop (k : string) (default : V) (d : dict) : V * dict :=
  (match get d k with Some v => v | None => default end, remove k d).

Definition keys (d : dict) : list string := map fst d.

End Dict.
Arguments dict V : clear implicits.

(** Apply a method to every value, keys and order unchanged
    ([for k in d: d[k].method()]). *)
Definition map_values {A B} (f : A -> B) (d : dict A) : dict B :=
  map (fun kv => (fst kv, f (snd kv))) d.

End PyDict.
Import PyDict.

(** ** The checkpoint manager ([probnmn/utils/checkpointing.py]) *)

Module Checkpointing.
Section Manager.

(** What [state_dict()] returns and [load_state_dict] accepts.  The manager
    never looks inside it. *)
Context {state_dict : Type}.

(** A registered object.  For [nn.DataParallel] and
    [nn.parallel.DistributedDataParallel] the manager goes through
    [.module]; for anything else it calls the object itself. *)
Inductive checkpointable : Type :=
| Plain (state : state_dict)
| Parallel (module : state_dict).

Definition is_parallel (c : checkpointable) : bool :=
  match c with Plain _ => false | Parallel _ => true end.

(** Values found in a serialized checkpoint: the iteration number, a state
    dict of the object registered under the name it is stored at, and a
    state dict of some other object, with other keys. *)
Inductive value : Type :=
| VInt (n : Z)
| VState (sd : state_dict)
| VForeign.

(** [c.state_dict()], respectively [c.module.state_dict()]. *)
Definition get_state_dict (c : checkpointable) : state_dict :=
  match c with
  | Plain sd => sd
  | Parallel sd => sd
  end.

(** The object [c] once it has taken over the state dict [sd]. *)
Definition restore (c : checkpointable) (sd : state_dict) : checkpointable :=
  if is_parallel c then Parallel sd else Plain sd.

(** [c.load_state_dict(v)], respectively [c.module.load_state_dict(v)]:
    a state dict of the object is taken over; a state dict with other keys
    raises [RuntimeError], and what is no state dict [TypeError]. *)
Definition load_state_dict (c : checkpointable) (v : value)
  : exn + checkpointable :=
  match v with
  | VState sd => inr (restore c sd)
  | VForeign => inl RuntimeError
  | VInt _ => inl TypeError
  end.

Record CheckpointManager : Type := Build_manager {
  serialization_dir : string;
  keep_recent : Z;
  checkpointables : dict checkpointable;
  _best_metric : Q;
  _best_ckpt : dict value;
  _recent_iterations : list Z
}.

(** The manager together with the file system it writes to: a file is the
    dictionary that was serialized into it. *)
Record world : Type := Build_world {
  self : CheckpointManager;
  disk : gmap string (dict value)
}.

Definition set_best (metric : Q) (ckpt : dict value) (w : world) : world :=
  let m := self w in
  Build_world
    (Build_manager (serialization_dir m) (keep_recent m) (checkpointables m)
       metric ckpt (_recent_iterations m))
    (disk w).

Definition set_recent_iterations (l : list Z) (w : world) : world :=
  let m := self w in
  Build_world
    (Build_manager (serialization_dir m) (keep_recent m) (checkpointables m)
       (_best_metric m) (_best_ckpt m) l)
    (disk w).

Definition set_checkpointables (cs : dict checkpointable) (w : world) : world :=
  let m := self w in
  Build_world
    (Build_manager (serialization_dir m) (keep_recent m) cs
       (_best_metric m) (_best_ckpt m) (_recent_iterations m))
    (disk w).

Definition set_disk (d : gmap string (dict value)) (w : world) : world :=
  Build_world (self w) d.

(** The float literal [-1e-12], as the exact rational value of its binary64
    representation.  Metrics are finite floats, compared as rationals. *)
Definition best_metric_init : Q := Qmake (-4951760157141521) (2 ^ 92).

Definition Qgt_bool (x y : Q) : bool := negb (Qle_bool x y).

(** [CheckpointManager.__init__] *)
Definition __init__ (serialization_dir : string) (keep_recent : Z)
    (checkpointables : dict checkpointable) : CheckpointManager :=
  {| serialization_dir := serialization_dir;
     keep_recent := keep_recent;
     checkpointables := checkpointables;
     _best_metric := best_metric_init;
     _best_ckpt := [];
     _recent_iterations := [] |}.

(** The instance attributes that hold a path.  [__init__] assigns
    [self.serialization_dir] and nothing else of that kind; reading any other
    name raises [AttributeError]. *)
Definition getattr_path (name : string) : M world string :=
  fun w =>
    if decide (name = "serialization_dir")
    then Returned (serialization_dir (self w)) w
    else Raised (AttributeError name) w.

(** [pathlib]'s [dir / name] *)
Definition path_join (dir name : string) : string := dir +:+ "/" +:+ name.

Definition checkpoint_file (iteration : Z) : string :=
  "checkpoint_" +:+ pretty iteration +:+ ".pth".

Definition best_file : string := "checkpoint_best.pth".

Definition torch_save (content : dict value) (path : string) : M world unit :=
  modify (fun w => set_disk (<[path := content]> (disk w)) w).

Definition torch_load (path : string) : M world (dict value) :=
  fun w =>
    match disk w !! path with
    | Some content => Returned content w
    | None => Raised (FileNotFoundError path) w
    end.

Definition unlink (path : string) : M world unit :=
  fun w =>
    match disk w !! path with
    | Some _ => Returned tt (set_disk (delete path (disk w)) w)
    | None => Raised (FileNotFoundError path) w
    end.

(** [CheckpointManager._state_dict] *)
Definition _state_dict (m : CheckpointManager) : dict value :=
  map_values (fun c => VState (get_state_dict c)) (checkpointables m).

(** [self._recent_iterations.pop(0)] *)
Definition pop_earliest : M world Z :=
  fun w =>
    match _recent_iterations (self w) with
    | [] => Raised IndexError w
    | earliest :: rest => Returned earliest (set_recent_iterations rest w)
    end.

(** [CheckpointManager.remove_earliest_checkpoint] *)
Definition remove_earliest_checkpoint : M world unit :=
  earliest_iteration <- pop_earliest ;;
  dir <- getattr_path "_serialization_dir" ;;
  unlink (path_join dir (checkpoint_file earliest_iteration)).

(** [CheckpointManager.step].  The dictionaries are values here, so the
    shallow [copy.copy] of the best record is the dictionary itself; the
    state dicts it shares with the live objects are followed by [loaded]
    and [train_to] below. *)
Definition step (iteration : Z) (metric : option Q) : M world unit :=
  state <- gets (fun w => _state_dict (self w)) ;;
  let checkpointable_state_dict := set "iteration" (VInt iteration) state in
  best <- gets (fun w => _best_metric (self w)) ;;
  match metric with
  | Some metric =>
      when (Qgt_bool metric best)
        (modify (set_best metric checkpointable_state_dict))
  | None => ret tt
  end ;;
  dir <- getattr_path "serialization_dir" ;;
  torch_save checkpointable_state_dict
    (path_join dir (checkpoint_file iteration)) ;;
  best_ckpt <- gets (fun w => _best_ckpt (self w)) ;;
  torch_save best_ckpt (path_join dir best_file) ;;
  modify (fun w =>
            set_recent_iterations
              (_recent_iterations (self w) ++ [iteration]) w) ;;
  recent <- gets (fun w => _recent_iterations (self w)) ;;
  limit <- gets (fun w => keep_recent (self w)) ;;
  when (Z.of_nat (length recent) >? limit)
    remove_earliest_checkpoint.

(** A dictionary held in memory whose entry under [key] is a state dict of
    the object registered as [key], once that object has reached the state
    [sd]: the entry shares the tensors of the object and shows [sd]. *)
Definition share (key : string) (sd : state_dict) (ckpt : dict value)
  : dict value :=
  match get ckpt key with
  | Some (VState _) => set key (VState sd) ckpt
  | _ => ckpt
  end.

(** The object registered as [key] has loaded a state dict in place and is
    now [c]; the best record, copied shallowly from what [state_dict()]
    returned, shows the new state with it. *)
Definition loaded (key : string) (c : checkpointable) (w : world) : world :=
  set_best (_best_metric (self w))
    (share key (get_state_dict c) (_best_ckpt (self w)))
    (set_checkpointables (set key c (checkpointables (self w))) w).

(** The loop [for key in checkpoint] of [load]: a key that names a
    registered checkpointable has [checkpoint[key]] loaded into that object,
    in place; other keys are only logged. *)
Fixpoint load_keys (checkpoint : dict value) (ks : list string)
  : M world unit :=
  match ks with
  | [] => ret tt
  | key :: ks' =>
      registry <- gets (fun w => checkpointables (self w)) ;;
      match get registry key with
      | Some c =>
          match get checkpoint key with
          | Some v =>
              match load_state_dict c v with
              | inr c' => modify (loaded key c')
              | inl e => raise e
              end
          | None => raise (KeyError key)
          end
      | None => ret tt
      end ;;
      load_keys checkpoint ks'
  end.

(** [CheckpointManager.load].  The [is_loaded] flags only feed the log. *)
Definition load (checkpoint_path : string) : M world value :=
  file <- torch_load checkpoint_path ;;
  let (iteration, checkpoint) := pop "iteration" (VInt (-1)) file in
  load_keys checkpoint (keys checkpoint) ;;
  ret iteration.

(** What [step] serializes at a call: the state dicts of the registry with
    the iteration number stored under ["iteration"]. *)
Definition snapshot (iteration : Z) (m : CheckpointManager) : dict value :=
  set "iteration" (VInt iteration) (_state_dict m).

Definition iteration_path (m : CheckpointManager) (iteration : Z) : string :=
  path_join (serialization_dir m) (checkpoint_file iteration).

Definition best_path (m : CheckpointManager) : string :=
  path_join (serialization_dir m) best_file.

(** [metric is not None and metric > self._best_metric] *)
Definition improves (metric : option Q) (m : CheckpointManager) : bool :=
  match metric with
  | Some q => Qgt_bool q (_best_metric m)
  | None => false
  end.

(** The manager after the best record was updated, if it was. *)
Definition after_best (iteration : Z) (metric : option Q) (w : world) : world :=
  match metric with
  | Some q =>
      if Qgt_bool q (_best_metric (self w))
      then set_best q (snapshot iteration (self w)) w
      else w
  | None => w
  end.

(** ... and after both files were written and the iteration queued. *)
Definition after_save (iteration : Z) (metric : option Q) (w : world) : world :=
  let w1 := after_best iteration metric w in
  set_recent_iterations (_recent_iterations (self w) ++ [iteration])%list
    (set_disk
       (<[best_path (self w) := _best_ckpt (self w1)]>
          (<[iteration_path (self w) iteration := snapshot iteration (self w)]>
             (disk w)))
       w1).

(** The per-iteration checkpoint files on disk: every file except the best
    checkpoint. *)
Definition iteration_files (w : world) : gset string :=
  dom (delete (best_path (self w)) (disk w)).

(** The value [load] returns for a file: [checkpoint.pop("iteration", -1)]. *)
Definition stored_iteration (file : dict value) : value :=
  fst (pop "iteration" (VInt (-1)) file).

(** Every entry of the file that [load] would hand to a registered
    checkpointable is a state dict. *)
Definition loadable (registry : dict checkpointable) (file : dict value)
  : Prop :=
  forall key v,
    key <> "iteration" -> contains registry key = true ->
    get file key = Some v -> exists sd, v = VState sd.

(** One turn of a training loop: the registered objects have reached the
    states [objects] when [step(call_iteration, call_metric)] is called. *)
Record call : Type := Build_call {
  objects : dict checkpointable;
  call_iteration : Z;
  call_metric : option Q
}.

(** What [step] serializes for a call. *)
Definition serialized (c : call) : dict value :=
  set "iteration" (VInt (call_iteration c))
    (map_values (fun o => VState (get_state_dict o)) (objects c)).

(** The state dicts of a dictionary held in memory, once the registered
    objects have reached the states [registry]. *)
Definition refresh (registry : dict checkpointable) (ckpt : dict value)
  : dict value :=
  map (fun entry =>
         match snd entry, get registry (fst entry) with
         | VState _, Some c => (fst entry, VState (get_state_dict c))
         | _, _ => entry
         end) ckpt.

(** Training between two calls: the registered objects are updated in place
    to the states [registry], and the best record shows the new states. *)
Definition train_to (registry : dict checkpointable) (w : world) : world :=
  set_best (_best_metric (self w))
    (refresh registry (_best_ckpt (self w)))
    (set_checkpointables registry w).

(** A training loop that carries on after every call, also after one in
    which [step] raised. *)
Definition run_call (w : world) (c : call) : world :=
  final (step (call_iteration c) (call_metric c) (train_to (objects c) w)).

Definition run (calls : list call) (w : world) : world :=
  fold_left run_call calls w.

(** The call [c] to [step] after the calls of a loop. *)
Definition run_step (calls : list call) (w : world) (c : call)
  : outcome world unit :=
  step (call_iteration c) (call_metric c) (train_to (objects c) (run calls w)).

(** The round trip of one name: [step] runs on [w], the registered objects
    then move on to the states [later], and [load] reads the file of that
    iteration back.  The name is restored when the object registered under
    it ends up holding the state dict the file stores under that name. *)
Definition restored_by_round_trip (w : world) (iteration : Z)
    (metric : option Q) (later : dict checkpointable) (name : string) : Prop :=
  let path := iteration_path (self w) iteration in
  let w1 := set_checkpointables later (final (step iteration metric w)) in
  exists file v c,
    disk w1 !! path = Some file /\
    get file name = Some v /\
    get (checkpointables (self (final (load path w1)))) name = Some c /\
    VState (get_state_dict c) = v.

End Manager.

Arguments checkpointable state_dict : clear implicits.
Arguments value state_dict : clear implicits.
Arguments CheckpointManager state_dict : clear implicits.
Arguments world state_dict : clear implicits.
Arguments call state_dict : clear implicits.

End Checkpointing.

(** ** The evaluator ([probnmn/evaluators/_evaluator.py]) *)

Module Evaluator.
Section Evaluator.

(** A batch of the data loader, and what a model's [get_metrics()]
    returns. *)
Context {batch metrics : Type}.

(** An [nn.Module] as the evaluator sees it: its [training] flag, its
    [get_metrics] attribute ([None] when [hasattr] is false, otherwise what a
    call returns), and for an [nn.DataParallel] the wrapped [module]. *)
Inductive model : Type :=
| NNModule (training : bool) (get_metrics : option metrics)
| DataParallel (training : bool) (get_metrics : option metrics)
    (module : model).

Definition training (m : model) : bool :=
  match m with
  | NNModule t _ => t
  | DataParallel t _ _ => t
  end.

Definition get_metrics (m : model) : option metrics :=
  match m with
  | NNModule _ g => g
  | DataParallel _ g _ => g
  end.

(** [nn.Module.train(mode)] sets the flag on the module and its children;
    [eval()] is [train(False)]. *)
Fixpoint train (mode : bool) (m : model) : model :=
  match m with
  | NNModule _ g => NNModule mode g
  | DataParallel _ g inner => DataParallel mode g (train mode inner)
  end.

Definition eval (m : model) : model := train false m.

(** The forward pass [model(batch)]: it may update the model (its metric
    accumulators) and it may raise. *)
Variable forward : model -> batch -> exn + model.

(** [batch[key] = batch[key].to(device)] for every key. *)
Variable to_device : string -> batch -> batch.

Record _Evaluator : Type := Build_evaluator {
  _dataloader : list batch;
  _models : dict model;
  _device : string
}.

(** The evaluator and the batches handed to [_do_iteration] so far. *)
Record world : Type := Build_world {
  self : _Evaluator;
  processed : list batch
}.

Definition set_models (ms : dict model) (w : world) : world :=
  Build_world
    (Build_evaluator (_dataloader (self w)) ms (_device (self w)))
    (processed w).

Definition record_batch (b : batch) (w : world) : world :=
  Build_world (self w) (processed w ++ [b]).

(** [_Evaluator.__init__]; [gpu_ids[0]] needs a non-empty list. *)
Definition __init__ (dataloader : list batch) (models : dict model)
    (gpu_ids : list Z) : exn + _Evaluator :=
  match gpu_ids with
  | [] => inl IndexError
  | g :: _ =>
      inr (Build_evaluator dataloader models
             (if g >=? 0 then "cuda:" +:+ pretty g else "cpu"))
  end.

(** [_Evaluator._do_iteration], as the base class has it: a forward pass of
    the model called ["model"], whose output [evaluate] drops. *)
Definition _do_iteration (b : batch) : M world unit :=
  modify (record_batch b) ;;
  models <- gets (fun w => _models (self w)) ;;
  match get models "model" with
  | None => raise (KeyError "model")
  | Some m =>
      match forward m b with
      | inr m' => modify (set_models (set "model" m' models))
      | inl e => raise e
      end
  end.

(** [num_batches is not None and iteration > num_batches] *)
Definition limit_reached (num_batches : option Z) (iteration : Z) : bool :=
  match num_batches with
  | Some n => iteration >? n
  | None => false
  end.

(** The loop over [enumerate(self._dataloader)], from index [iteration]. *)
Fixpoint batch_loop (num_batches : option Z) (iteration : Z)
    (batches : list batch) : M world unit :=
  match batches with
  | [] => ret tt
  | b :: rest =>
      device <- gets (fun w => _device (self w)) ;;
      _do_iteration (to_device device b) ;;
      if limit_reached num_batches iteration then ret tt
      else batch_loop num_batches (iteration + 1) rest
  end.

(** One round of the metrics loop, for the model [m] registered as
    [model_name]. *)
Definition collect (model_name : string) (m : model)
    (eval_metrics : dict metrics) : dict metrics :=
  match get_metrics m with
  | Some v => set model_name v eval_metrics
  | None =>
      match m with
      | DataParallel _ _ inner =>
          match get_metrics inner with
          | Some v => set model_name v eval_metrics
          | None => eval_metrics
          end
      | NNModule _ _ => eval_metrics
      end
  end.

Definition collect_metrics (models : dict model) : dict metrics :=
  fold_left
    (fun eval_metrics model_name =>
       match get models model_name with
       | Some m => collect model_name m eval_metrics
       | None => eval_metrics
       end)
    (keys models) [].

(** [_Evaluator.evaluate] *)
Definition evaluate (num_batches : option Z) : M world (dict metrics) :=
  modify (fun w => set_models (map_values eval (_models (self w))) w) ;;
  dataloader <- gets (fun w => _dataloader (self w)) ;;
  batch_loop num_batches 0 dataloader ;;
  models <- gets (fun w => _models (self w)) ;;
  let eval_metrics := collect_metrics models in
  modify (fun w => set_models (map_values (train true) (_models (self w))) w) ;;
  ret eval_metrics.

(** The metrics a model exposes to the metrics loop, if any. *)
Definition exposed_metrics (m : model) : option metrics :=
  match get_metrics m, m with
  | Some v, _ => Some v
  | None, DataParallel _ _ inner => get_metrics inner
  | None, NNModule _ _ => None
  end.

(** The module and everything it wraps carry the flag [mode]. *)
Fixpoint in_mode (mode : bool) (m : model) : bool :=
  match m with
  | NNModule t _ => bool_decide (t = mode)
  | DataParallel t _ inner => bool_decide (t = mode) && in_mode mode inner
  end.

(** The first phase of [evaluate]: every model switched to eval mode, then
    the loop over the data loader. *)
Definition eval_phase (num_batches : option Z) : M world unit :=
  modify (fun w => set_models (map_values eval (_models (self w))) w) ;;
  dataloader <- gets (fun w => _dataloader (self w)) ;;
  batch_loop num_batches 0 dataloader.

(** The forward passes over a list of batches, each on the model the one
    before has left. *)
Fixpoint forward_all (m : model) (batches : list batch) : exn + model :=
  match batches with
  | [] => inr m
  | b :: rest =>
      match forward m b with
      | inr m' => forward_all m' rest
      | inl e => inl e
      end
  end.

(** How many batches a loop that runs to its end takes from the loader:
    all of them without a limit, and at most [max(1, n + 2)] with the limit
    [n]. *)
Definition batches_taken (num_batches : option Z) (dataloader : list batch)
  : nat :=
  match num_batches with
  | Some n => Z.to_nat (Z.max 1 (n + 2))
  | None => length dataloader
  end.

(** The batches handed to [_do_iteration] between two states. *)
Definition batches_processed (before after : world) : Z :=
  Z.of_nat (length (processed after)) - Z.of_nat (length (processed before)).

End Evaluator.

Arguments model metrics : clear implicits.
Arguments _Evaluator batch metrics : clear implicits.
Arguments world batch metrics : clear implicits.

End Evaluator.

(** ** Concrete instances *)

Module Examples.
Import Checkpointing.

(** State dicts of the examples: parameter names with integer contents. *)
Definition tensors : Type := dict Z.

(** A fresh manager over an empty directory, keeping [keep_recent] files. *)
Definition fresh (keep_recent : Z) : world tensors :=
  Build_world
    (__init__ "/tmp/ckpt" keep_recent
       [("model", Plain [("weight", 3)]); ("optimizer", Parallel [("lr", 1)])])
    ∅.

(** The same objects after further training. *)
Definition trained : dict (checkpointable tensors) :=
  [("model", Plain [("weight", 8)]); ("optimizer", Parallel [("lr", 2)])].

(** A manager with a checkpointable registered as ["iteration"]. *)
Definition clash : world tensors :=
  Build_world
    (__init__ "/tmp/ckpt" 10
       [("model", Plain [("weight", 3)]); ("iteration", Plain [("count", 42)])])
    ∅.

(** A directory holding a checkpoint that knows only the model. *)
Definition partial_file : world tensors :=
  Build_world
    (self (fresh 10))
    {[ "/tmp/ckpt/old.pth" := [("model", VState [("weight", 5)])] ]}.

(** A training loop of three calls: the objects move on between the calls,
    the second call passes no metric. *)
Definition loop : list (call tensors) :=
  [ Build_call
      [("model", Plain [("weight", 3)]); ("optimizer", Parallel [("lr", 1)])]
      0 (Some (Qmake 1 2));
    Build_call
      [("model", Plain [("weight", 5)]); ("optimizer", Parallel [("lr", 1)])]
      1 None;
    Build_call trained 2 (Some (Qmake 1 4)) ].

(** A forward pass that adds the batch to the metrics of the model, when
    it keeps any; it raises on a negative batch. *)
Definition accumulate (m : Evaluator.model Z) (b : Z)
  : exn + Evaluator.model Z :=
  if (b <? 0)%Z then inl ForwardError
  else
    inr (match m with
         | Evaluator.NNModule t g =>
             Evaluator.NNModule t (Z.add b <$> g)
         | Evaluator.DataParallel t g inner =>
             Evaluator.DataParallel t (Z.add b <$> g) inner
         end).

(** Batches that are already where the models are. *)
Definition to_device (device : string) (b : Z) : Z := b.

(** An evaluator whose registry has no model called ["model"]. *)
Definition unnamed_evaluator : Evaluator.world Z Z :=
  Evaluator.Build_world
    (Evaluator.Build_evaluator [1; 2]
       [("encoder", Evaluator.NNModule true (Some 4))] "cpu")
    [].

(** An evaluator with nothing to evaluate on. *)
Definition idle_evaluator : Evaluator.world Z Z :=
  Evaluator.Build_world
    (Evaluator.Build_evaluator []
       [("model", Evaluator.NNModule true (Some 4));
        ("frozen", Evaluator.NNModule false None)] "cpu")
    [].

(** An evaluator over five batches: the model proper in training mode, a
    wrapped model that keeps metrics, and a model without [get_metrics] that
    the caller had left in eval mode. *)
Definition evaluator : Evaluator.world Z Z :=
  Evaluator.Build_world
    (Evaluator.Build_evaluator [1; 2; 3; 4; 5]
       [("model", Evaluator.NNModule true (Some 0));
        ("wrapped",
          Evaluator.DataParallel true None (Evaluator.NNModule true (Some 9)));
        ("frozen", Evaluator.NNModule false None)]
       "cpu")
    [].

End Examples.

(** ** Dictionary laws *)

Section DictLaws.
Context {V : Type}.
Implicit Types (d : dict V) (k : string) (v : V).

Lemma get_set_eq d k v : get (set k v d) k = Some v.
Proof.
  induction d as [|[k' v'] d IH]; simpl.
  - by rewrite decide_True.
  - destruct (decide (k = k')) as [->|Hne]; simpl.
    + by rewrite decide_True.
    + by rewrite decide_False.
Qed.

Lemma get_set_ne d k k' v : k <> k' -> get (set k v d) k' = get d k'.
Proof.
  intros Hne. induction d as [|[k0 v0] d IH]; simpl.
  - by rewrite decide_False.
  - destruct (decide (k = k0)) as [->|Hk]; simpl.
    + by rewrite !decide_False.
    + by rewrite IH.
Qed.

Lemma get_remove_eq d k : get (remove k d) k = None.
Proof.
  induction d as [|[k' v'] d IH]; simpl; [done|].
  destruct (decide (k = k')) as [->|Hne]; simpl; [done|].
  by rewrite decide_False.
Qed.

Lemma get_remove_ne d k k' : k <> k' -> get (remove k d) k' = get d k'.
Proof.
  intros Hne. induction d as [|[k0 v0] d IH]; simpl; [done|].
  destruct (decide (k = k0)) as [->|Hk]; simpl.
  - by rewrite decide_False.
  - by rewrite IH.
Qed.

Lemma get_None_keys d k : get d k = None <-> k ∉ keys d.
Proof.
  induction d as [|[k' v'] d IH]; simpl.
  - split; [intros _; apply not_elem_of_nil | done].
  - rewrite not_elem_of_cons. destruct (decide (k = k')) as [->|Hne].
    + split; [done | by intros [? _]].
    + rewrite IH. tauto.
Qed.

Lemma get_Some_keys d k v : get d k = Some v -> k ∈ keys d.
Proof.
  intros Hget. destruct (decide (k ∈ keys d)) as [|Hnot]; [done|].
  apply get_None_keys in Hnot. congruence.
Qed.

Lemma contains_true d k : contains d k = true <-> is_Some (get d k).
Proof.
  unfold contains. by destruct (get d k); split; try done.
Qed.

Lemma contains_set d k k' v :
  contains d k = true -> contains (set k v d) k' = contains d k'.
Proof.
  unfold contains. intros Hk. destruct (decide (k = k')) as [<-|Hne].
  - rewrite get_set_eq. by destruct (get d k).
  - by rewrite get_set_ne.
Qed.

End DictLaws.

Lemma get_map_values {A B} (f : A -> B) (d : dict A) k :
  get (map_values f d) k = f <$> get d k.
Proof.
  induction d as [|[k' a] d IH]; simpl; [done|].
  by destruct (decide (k = k')).
Qed.

(** ** Running computations *)

Ltac run_monad :=
  unfold bind, gets, modify, when, ret, raise in *; simpl in *.

(** ** File names *)

(** Printing a number never starts with the letter that starts [best]. *)
Lemma pretty_N_go_not_b (x : N) (s s' : string) :
  s <> String "b"%char s' -> pretty_N_go x s <> String "b"%char s'.
Proof.
  revert s. induction (N.lt_wf_0 x) as [x _ IH]. intros s Hs.
  destruct (decide (x = 0%N)) as [->|Hpos].
  - by rewrite pretty_N_go_0.
  - rewrite pretty_N_go_step by lia.
    apply IH.
    + apply N.div_lt; lia.
    + unfold pretty_N_char. intros Heq. by repeat case_match.
Qed.

Lemma pretty_Z_not_best (i : Z) : pretty i +:+ ".pth" <> "best.pth".
Proof.
  unfold pretty, pretty_Z. destruct i as [|p|p]; [done| |done].
  unfold pretty, pretty_positive, pretty, pretty_N.
  rewrite decide_False by done.
  destruct (pretty_N_go (N.pos p) "") as [|c t] eqn:Hgo; [done|].
  simpl. intros [= -> _]. by apply pretty_N_go_not_b in Hgo.
Qed.

Lemma checkpoint_file_not_best (i : Z) :
  Checkpointing.checkpoint_file i <> Checkpointing.best_file.
Proof.
  unfold Checkpointing.checkpoint_file, Checkpointing.best_file.
  intros Heq. apply (pretty_Z_not_best i).
  by apply (inj (String.app "checkpoint_")).
Qed.

Lemma path_join_inj (dir a b : string) :
  Checkpointing.path_join dir a = Checkpointing.path_join dir b -> a = b.
Proof.
  unfold Checkpointing.path_join. intros Heq.
  apply (inj (String.app dir)) in Heq. by apply (inj (String.app "/")) in Heq.
Qed.

Lemma checkpoint_path_not_best (dir : string) (i : Z) :
  Checkpointing.path_join dir (Checkpointing.checkpoint_file i)
  <> Checkpointing.path_join dir Checkpointing.best_file.
Proof. intros Heq. by apply path_join_inj, checkpoint_file_not_best in Heq. Qed.

(** ** The checkpoint manager: what a call to [step] does *)

Section StepFacts.
Import Checkpointing.
Context {state_dict : Type}.
Implicit Types (w : world state_dict) (iteration : Z) (metric : option Q).

Lemma step_unfold iteration metric w :
  step iteration metric w =
    if Z.of_nat (length (_recent_iterations (self w) ++ [iteration])%list)
       >? keep_recent (self w)
    then
      match (_recent_iterations (self w) ++ [iteration])%list with
      | [] => Raised IndexError (after_save iteration metric w)
      | _ :: rest =>
          Raised (AttributeError "_serialization_dir")
            (set_recent_iterations rest (after_save iteration metric w))
      end
    else Returned tt (after_save iteration metric w).
Proof.
  unfold step, after_save, after_best, remove_earliest_checkpoint, pop_earliest.
  run_monad.
  destruct w as [[dir limit registry best ckpt recent] files]; simpl.
  destruct metric as [q|]; simpl; [destruct (Qgt_bool q best); simpl|];
    destruct (_ >? limit); simpl; try reflexivity;
    destruct (recent ++ [iteration])%list; reflexivity.
Qed.

Lemma step_final_disk iteration metric w :
  disk (final (step iteration metric w)) =
    <[best_path (self w) := _best_ckpt (self (after_best iteration metric w))]>
      (<[iteration_path (self w) iteration := snapshot iteration (self w)]>
         (disk w)).
Proof.
  rewrite step_unfold.
  destruct (_ >? _); [destruct (_ ++ _)%list|]; reflexivity.
Qed.

Lemma after_best_frame iteration metric w :
  checkpointables (self (after_best iteration metric w))
  = checkpointables (self w)
  /\ serialization_dir (self (after_best iteration metric w))
     = serialization_dir (self w)
  /\ keep_recent (self (after_best iteration metric w)) = keep_recent (self w).
Proof.
  unfold after_best. destruct metric as [q|]; [|done].
  by destruct (Qgt_bool _ _).
Qed.

Lemma step_final_checkpointables iteration metric w :
  checkpointables (self (final (step iteration metric w)))
  = checkpointables (self w).
Proof.
  rewrite step_unfold.
  destruct (_ >? _); [destruct (_ ++ _)%list|]; simpl;
    apply after_best_frame.
Qed.

Lemma step_final_serialization_dir iteration metric w :
  serialization_dir (self (final (step iteration metric w)))
  = serialization_dir (self w).
Proof.
  rewrite step_unfold.
  destruct (_ >? _); [destruct (_ ++ _)%list|]; simpl;
    apply after_best_frame.
Qed.

(** Whatever the outcome of [step], the file of the iteration holds the
    snapshot taken at the call. *)
Lemma step_writes_snapshot iteration metric w :
  disk (final (step iteration metric w)) !! iteration_path (self w) iteration
  = Some (snapshot iteration (self w)).
Proof.
  rewrite step_final_disk.
  rewrite lookup_insert_ne by (symmetry; apply checkpoint_path_not_best).
  apply lookup_insert_eq.
Qed.

(** ... and the best file holds the manager's best record. *)
Lemma step_writes_best iteration metric w :
  disk (final (step iteration metric w)) !! best_path (self w)
  = Some (_best_ckpt (self (final (step iteration metric w)))).
Proof.
  rewrite step_final_disk, lookup_insert_eq. f_equal.
  rewrite step_unfold.
  destruct (_ >? _); [destruct (_ ++ _)%list|]; reflexivity.
Qed.

(** The best record is replaced by the snapshot of the call exactly when the
    metric is strictly greater than the recorded one. *)
Lemma step_best_record iteration metric w :
  _best_ckpt (self (final (step iteration metric w))) =
    if improves metric (self w) then snapshot iteration (self w)
    else _best_ckpt (self w).
Proof.
  rewrite step_unfold.
  assert (_best_ckpt (self (after_best iteration metric w)) =
            if improves metric (self w) then snapshot iteration (self w)
            else _best_ckpt (self w)) as <-.
  { unfold after_best, improves. destruct metric as [q|]; [|done].
    by destruct (Qgt_bool _ _). }
  destruct (_ >? _); [destruct (_ ++ _)%list|]; reflexivity.
Qed.

(** [step] never removes a file: the eviction stops at the attribute
    lookup, before [unlink]. *)
Lemma step_keeps_files iteration metric w path :
  is_Some (disk w !! path) ->
  is_Some (disk (final (step iteration metric w)) !! path).
Proof.
  intros Hfile. rewrite step_final_disk.
  rewrite !lookup_insert. by repeat case_decide.
Qed.

(** [step] raises as soon as the queue outgrows [keep_recent]. *)
Lemma step_raises_when_full iteration metric w :
  keep_recent (self w) < Z.of_nat (length (_recent_iterations (self w))) + 1 ->
  exists w',
    step iteration metric w = Raised (AttributeError "_serialization_dir") w'.
Proof.
  intros Hfull. rewrite step_unfold.
  rewrite length_app, Nat2Z.inj_add. simpl.
  match goal with |- context [?a >? ?b] => destruct (Z.gtb_spec a b) end;
    [|lia].
  destruct (_recent_iterations (self w)); simpl; eauto.
Qed.

Lemma step_returns_when_room iteration metric w :
  Z.of_nat (length (_recent_iterations (self w))) + 1 <= keep_recent (self w) ->
  step iteration metric w = Returned tt (after_save iteration metric w).
Proof.
  intros Hroom. rewrite step_unfold.
  rewrite length_app, Nat2Z.inj_add. simpl.
  match goal with |- context [?a >? ?b] => destruct (Z.gtb_spec a b) end;
    [lia|done].
Qed.

End StepFacts.

(** ** The checkpoint manager: what a call to [load] does *)

Section LoadFacts.
Import Checkpointing.
Context {state_dict : Type}.
Implicit Types (w : world state_dict).
Implicit Types (file checkpoint : dict (value state_dict)).
Implicit Types (registry : dict (checkpointable state_dict)).

Lemma restore_state (c : checkpointable state_dict) sd :
  get_state_dict (restore c sd) = sd.
Proof. unfold restore. by destruct (is_parallel c). Qed.

Lemma restore_restore (c : checkpointable state_dict) sd sd' :
  restore (restore c sd) sd' = restore c sd'.
Proof. unfold restore. by destruct c. Qed.

(** The loop touches no object whose name it does not visit, whether it
    completes or raises on the way. *)
Lemma load_keys_frame checkpoint ks w name :
  name ∉ ks ->
  get (checkpointables (self (final (load_keys checkpoint ks w)))) name
  = get (checkpointables (self w)) name.
Proof.
  revert w. induction ks as [|key ks IH]; intros w Hname; [done|].
  apply not_elem_of_cons in Hname as [Hne Hname].
  simpl. run_monad.
  destruct (get (checkpointables (self w)) key) as [c|] eqn:Hc;
    [|by apply IH].
  destruct (get checkpoint key) as [v|]; [|done].
  destruct (load_state_dict c v) as [e|c']; [done|].
  rewrite IH by done. simpl. by apply get_set_ne.
Qed.

(** When every entry it hands over is a state dict, the loop completes and
    each visited object holds the state dict stored under its name. *)
Lemma load_keys_loaded checkpoint ks w :
  (forall key v, key ∈ ks -> contains (checkpointables (self w)) key = true ->
                 get checkpoint key = Some v -> exists sd, v = VState sd) ->
  (forall key, key ∈ ks -> is_Some (get checkpoint key)) ->
  exists w',
    load_keys checkpoint ks w = Returned tt w' /\
    forall name c sd,
      name ∈ ks -> get (checkpointables (self w)) name = Some c ->
      get checkpoint name = Some (VState sd) ->
      get (checkpointables (self w')) name = Some (restore c sd).
Proof.
  revert w. induction ks as [|key ks IH]; intros w Hstate Hkeys.
  { exists w. split; [done|]. intros ??? Hin. by apply elem_of_nil in Hin. }
  simpl. run_monad.
  destruct (get (checkpointables (self w)) key) as [c|] eqn:Hc.
  - destruct (Hkeys key) as [v Hv]; [left|]. rewrite Hv.
    destruct (Hstate key v) as [sd ->];
      [left | by apply contains_true; rewrite Hc | done |].
    simpl.
    set (w1 := loaded key (restore c sd) w).
    destruct (IH w1) as (w' & Hrun & Hloaded).
    { intros key' v' Hin Hreg. apply Hstate; [by right|].
      subst w1. simpl in Hreg. rewrite contains_set in Hreg; [done|].
      apply contains_true. by rewrite Hc. }
    { intros key' Hin. apply Hkeys. by right. }
    exists w'. split; [done|]. intros name c0 sd0 Hin Hc0 Hsd0.
    destruct (decide (name ∈ ks)) as [Hks|Hks].
    + destruct (decide (name = key)) as [->|Hne].
      * rewrite (Hloaded key (restore c sd) sd0 Hks); [|subst w1; simpl|done].
        -- rewrite restore_restore. congruence.
        -- apply get_set_eq.
      * apply Hloaded; [done| |done]. subst w1; simpl.
        by rewrite get_set_ne.
    + apply elem_of_cons in Hin as [->|]; [|done].
      pose proof (load_keys_frame checkpoint ks w1 key Hks) as Hframe.
      rewrite Hrun in Hframe. simpl in Hframe. rewrite Hframe.
      subst w1; simpl. rewrite get_set_eq. congruence.
  - destruct (IH w) as (w' & Hrun & Hloaded).
    { intros key' v' Hin. apply Hstate. by right. }
    { intros key' Hin. apply Hkeys. by right. }
    exists w'. split; [done|]. intros name c0 sd0 Hin Hc0 Hsd0.
    apply elem_of_cons in Hin as [->|Hin]; [congruence|].
    by apply (Hloaded name c0 sd0).
Qed.

Lemma load_unfold path w file :
  disk w !! path = Some file ->
  load path w =
    match load_keys (remove "iteration" file)
            (keys (remove "iteration" file)) w with
    | Returned _ w' => Returned (stored_iteration file) w'
    | Raised e w' => Raised e w'
    end.
Proof.
  intros Hfile. unfold load, torch_load, stored_iteration, pop.
  run_monad. by rewrite Hfile.
Qed.

Lemma load_missing_file path w :
  disk w !! path = None -> load path w = Raised (FileNotFoundError path) w.
Proof.
  intros Hfile. unfold load, torch_load. run_monad. by rewrite Hfile.
Qed.

Lemma final_load path w file :
  disk w !! path = Some file ->
  final (load path w) =
    final (load_keys (remove "iteration" file)
             (keys (remove "iteration" file)) w).
Proof.
  intros Hfile. rewrite (load_unfold _ _ _ Hfile).
  by destruct (load_keys _ _ _).
Qed.

Lemma stored_iteration_get file :
  stored_iteration file =
    match get file "iteration" with Some v => v | None => VInt (-1) end.
Proof. reflexivity. Qed.

End LoadFacts.

(** ** The checkpoint manager over a training loop *)

Section RunFacts.
Import Checkpointing.
Context {state_dict : Type}.
Implicit Types (w : world state_dict) (c : call state_dict).
Implicit Types (calls : list (call state_dict)).

Lemma Qgt_bool_true x y : Qgt_bool x y = true -> Qlt y x.
Proof.
  unfold Qgt_bool. intros Hgt. apply Qnot_le_lt. intros Hle.
  apply Qle_bool_iff in Hle. by rewrite Hle in Hgt.
Qed.

Lemma Qgt_bool_false x y : Qgt_bool x y = false -> Qle x y.
Proof.
  unfold Qgt_bool. intros Hgt. apply Qle_bool_iff.
  by destruct (Qle_bool x y).
Qed.

Lemma step_best_metric iteration metric w :
  _best_metric (self (final (step iteration metric w))) =
    match metric with
    | Some q => if Qgt_bool q (_best_metric (self w)) then q
                else _best_metric (self w)
    | None => _best_metric (self w)
    end.
Proof.
  rewrite step_unfold.
  assert (_best_metric (self (after_best iteration metric w)) =
            match metric with
            | Some q => if Qgt_bool q (_best_metric (self w)) then q
                        else _best_metric (self w)
            | None => _best_metric (self w)
            end) as <-.
  { unfold after_best. destruct metric as [q|]; [|done].
    by destruct (Qgt_bool _ _). }
  destruct (_ >? _); [destruct (_ ++ _)%list|]; reflexivity.
Qed.

Lemma run_snoc calls c w : run (calls ++ [c]) w = run_call (run calls w) c.
Proof. unfold run. by rewrite fold_left_app. Qed.

Lemma run_call_best_metric w c :
  _best_metric (self (run_call w c)) =
    match call_metric c with
    | Some q => if Qgt_bool q (_best_metric (self w)) then q
                else _best_metric (self w)
    | None => _best_metric (self w)
    end.
Proof. unfold run_call. by rewrite step_best_metric. Qed.

(** The best record after one call: what [step] serialized at the call
    when its metric improved, and otherwise the record as training has left
    it. *)
Lemma run_call_best_ckpt w c :
  _best_ckpt (self (run_call w c)) =
    match call_metric c with
    | Some q => if Qgt_bool q (_best_metric (self w)) then serialized c
                else refresh (objects c) (_best_ckpt (self w))
    | None => refresh (objects c) (_best_ckpt (self w))
    end.
Proof.
  unfold run_call. rewrite step_best_record. unfold improves. simpl.
  by destruct (call_metric c).
Qed.

Lemma run_call_serialization_dir w c :
  serialization_dir (self (run_call w c)) = serialization_dir (self w).
Proof. unfold run_call. by rewrite step_final_serialization_dir. Qed.

Lemma run_serialization_dir calls w :
  serialization_dir (self (run calls w)) = serialization_dir (self w).
Proof.
  induction calls as [|c calls IH] using rev_ind; [done|].
  by rewrite run_snoc, run_call_serialization_dir.
Qed.

(** The recorded metric never decreases, ... *)
Lemma run_call_best_metric_mono w c :
  Qle (_best_metric (self w)) (_best_metric (self (run_call w c))).
Proof.
  rewrite run_call_best_metric. destruct (call_metric c) as [q|].
  - destruct (Qgt_bool _ _) eqn:Hgt; [|apply Qle_refl].
    by apply Qlt_le_weak, Qgt_bool_true.
  - apply Qle_refl.
Qed.

(** ... so it bounds every metric the loop has passed to [step]. *)
Lemma run_best_metric_bound calls w c q :
  c ∈ calls -> call_metric c = Some q ->
  Qle q (_best_metric (self (run calls w))).
Proof.
  induction calls as [|c' calls IH] using rev_ind; intros Hin Hq.
  { by apply elem_of_nil in Hin. }
  rewrite run_snoc.
  apply elem_of_app in Hin as [Hin|Hin%list_elem_of_singleton].
  - eapply Qle_trans; [by apply IH | apply run_call_best_metric_mono].
  - subst c'. rewrite run_call_best_metric, Hq.
    destruct (Qgt_bool _ _) eqn:Hgt; [apply Qle_refl|].
    by apply Qgt_bool_false.
Qed.


(** No call of the loop removes the file of an earlier call. *)
Lemma run_keeps_iteration_files calls w c :
  c ∈ calls ->
  is_Some (disk (run calls w) !! iteration_path (self w) (call_iteration c)).
Proof.
  induction calls as [|c' calls IH] using rev_ind; intros Hin.
  { by apply elem_of_nil in Hin. }
  rewrite run_snoc. unfold run_call.
  apply elem_of_app in Hin as [Hin|Hin%list_elem_of_singleton].
  - by apply step_keeps_files, IH.
  - subst c'. eexists. unfold iteration_path.
    rewrite <- (run_serialization_dir calls w).
    apply (step_writes_snapshot (call_iteration c) (call_metric c)
             (train_to (objects c) (run calls w))).
Qed.

End RunFacts.

(** ** The checkpoint manager: save and load *)

Section RoundTrip.
Import Checkpointing.
Context {state_dict : Type}.
Implicit Types (w : world state_dict) (file : dict (value state_dict)).

Lemma snapshot_iteration iteration (m : CheckpointManager state_dict) :
  get (snapshot iteration m) "iteration" = Some (VInt iteration).
Proof. apply get_set_eq. Qed.

Lemma snapshot_get iteration (m : CheckpointManager state_dict) name :
  name <> "iteration" ->
  get (remove "iteration" (snapshot iteration m)) name
  = (fun c => VState (get_state_dict c)) <$> get (checkpointables m) name.
Proof.
  intros Hne. rewrite get_remove_ne by done.
  unfold snapshot. rewrite get_set_ne by done. apply get_map_values.
Qed.

Lemma keys_remove_iteration file key :
  key ∈ keys (remove "iteration" file) ->
  key <> "iteration" /\ is_Some (get (remove "iteration" file) key).
Proof.
  intros Hin. split.
  - intros ->. by apply (get_None_keys (remove "iteration" file) "iteration");
      [apply get_remove_eq|].
  - destruct (get (remove "iteration" file) key) eqn:Hget; [done|].
    by apply get_None_keys in Hget.
Qed.

(** C5, as amended.  [step(i, ...)] followed, after any further changes to
    the registered objects, by [load] of the file [checkpoint_<i>.pth]
    returns normally and restores, for every registered checkpointable whose
    name is not ["iteration"], exactly the state dict that the file stores
    under its name, which is the state the object had when [step] ran. *)
Theorem step_load_round_trip w iteration metric later name c c' :
  name <> "iteration" ->
  get (checkpointables (self w)) name = Some c ->
  get later name = Some c' ->
  let path := iteration_path (self w) iteration in
  let w1 := set_checkpointables later (final (step iteration metric w)) in
  returns (load path w1) = true /\
  restored_by_round_trip w iteration metric later name /\
  get_state_dict <$> get (checkpointables (self (final (load path w1)))) name
  = Some (get_state_dict c).
Proof.
  intros Hname Hc Hc'. unfold restored_by_round_trip. cbv zeta.
  set (path := iteration_path (self w) iteration).
  set (w1 := set_checkpointables later (final (step iteration metric w))).
  set (file := snapshot iteration (self w)).
  assert (disk w1 !! path = Some file) as Hfile
    by apply step_writes_snapshot.
  assert (get (remove "iteration" file) name = Some (VState (get_state_dict c)))
    as Hentry by (subst file; rewrite snapshot_get, Hc; done).
  destruct (load_keys_loaded (remove "iteration" file)
              (keys (remove "iteration" file)) w1) as (w2 & Hrun & Hloaded).
  { intros key v Hin _ Hv. apply keys_remove_iteration in Hin as [Hne _].
    subst file. rewrite snapshot_get in Hv by done.
    destruct (get (checkpointables (self w)) key); simplify_eq/=; eauto. }
  { intros key Hin. by apply keys_remove_iteration in Hin as [_ ?]. }
  assert (get (checkpointables (self w2)) name
          = Some (restore c' (get_state_dict c))) as Hrestored.
  { apply Hloaded; [by eapply get_Some_keys|done|done]. }
  rewrite (load_unfold _ _ _ Hfile), Hrun. simpl.
  split; [done|]. split.
  - exists file, (VState (get_state_dict c)), (restore c' (get_state_dict c)).
    split; [done|]. split.
    { rewrite <- Hentry. symmetry. by apply get_remove_ne. }
    split; [done|]. by rewrite restore_state.
  - by rewrite Hrestored; simpl; rewrite restore_state.
Qed.

End RoundTrip.

Section RoundTripExamples.
Import Checkpointing.

Lemma step_load_round_trip_witness :
  let w := Examples.fresh 10 in
  let path := iteration_path (self w) 3 in
  let w1 := set_checkpointables Examples.trained (final (step 3 None w)) in
  returns (load path w1) = true /\
  restored_by_round_trip w 3 None Examples.trained "model" /\
  get_state_dict <$> get (checkpointables (self (final (load path w1)))) "model"
  = Some [("weight", 3)].
Proof.
  apply (step_load_round_trip (Examples.fresh 10) 3 None Examples.trained
           "model" (Plain [("weight", 3)]) (Plain [("weight", 8)])).
  - discriminate.
  - reflexivity.
  - reflexivity.
Defined.

(** C5, as stated, fails for a checkpointable registered as ["iteration"]:
    its name is a key of the file written by [step], yet after [load] the
    object does not hold what the file stores under that name. *)
Lemma round_trip_misses_iteration_name :
  let w := Examples.clash in
  is_Some (get (checkpointables (self w)) "iteration") /\
  ~ restored_by_round_trip w 7 None (checkpointables (self w)) "iteration".
Proof.
  split; [by eexists|].
  unfold restored_by_round_trip. cbv zeta.
  intros (file & v & c & Hfile & Hv & Hc & Heq).
  vm_compute in Hfile. injection Hfile as <-.
  vm_compute in Hv. injection Hv as <-.
  vm_compute in Hc. injection Hc as <-.
  discriminate Heq.
Qed.

End RoundTripExamples.

Section LoadClaims.
Import Checkpointing.
Context {state_dict : Type}.
Implicit Types (w : world state_dict) (file : dict (value state_dict)).

(** C6.  [load(path)] leaves every checkpointable whose name is not a key of
    the serialized file exactly as it was, whether the call returns or
    raises on another entry. *)
Theorem load_leaves_unmatched_untouched path w file name :
  disk w !! path = Some file ->
  get file name = None ->
  get (checkpointables (self (final (load path w)))) name
  = get (checkpointables (self w)) name.
Proof.
  intros Hfile Hname. rewrite (final_load _ _ _ Hfile).
  apply load_keys_frame, get_None_keys.
  destruct (decide (name = "iteration")) as [->|Hne].
  - apply get_remove_eq.
  - by rewrite get_remove_ne.
Qed.

(** A loop over names none of which is registered hands nothing over and
    changes nothing. *)
Lemma load_keys_unmatched (checkpoint : dict (value state_dict)) ks w :
  (forall key, key ∈ ks -> get (checkpointables (self w)) key = None) ->
  load_keys checkpoint ks w = Returned tt w.
Proof.
  induction ks as [|key ks IH]; intros Hnone; [done|].
  simpl. run_monad. rewrite (Hnone key) by left. simpl.
  apply IH. intros key' Hin. apply Hnone. by right.
Qed.

(** C7.  When [load(path)] returns, it returns the value the file stores
    under ["iteration"], and [-1] when the file has no such entry.  It does
    return whenever each entry it hands to a registered checkpointable is
    accepted by that object's [load_state_dict]; in particular when no
    registered name is a key of the file, and then it changes nothing. *)
Theorem load_returns_stored_iteration path w file :
  disk w !! path = Some file ->
  let stored :=
    match get file "iteration" with Some v => v | None => VInt (-1) end in
  (forall r w', load path w = Returned r w' -> r = stored) /\
  ((forall key c v,
      key <> "iteration" ->
      get (checkpointables (self w)) key = Some c ->
      get file key = Some v ->
      exists c', load_state_dict c v = inr c') ->
   exists w', load path w = Returned stored w') /\
  ((forall key,
      key <> "iteration" ->
      contains (checkpointables (self w)) key = true ->
      get file key = None) ->
   load path w = Returned stored w).
Proof.
  intros Hfile stored. subst stored. rewrite <- stored_iteration_get.
  rewrite (load_unfold _ _ _ Hfile). split; [|split].
  - intros r w' Hrun. destruct (load_keys _ _ _); by simplify_eq.
  - intros Haccepted.
    destruct (load_keys_loaded (remove "iteration" file)
                (keys (remove "iteration" file)) w) as (w' & -> & _); eauto.
    + intros key v Hin Hreg Hv. apply keys_remove_iteration in Hin as [Hne _].
      rewrite get_remove_ne in Hv by done.
      apply contains_true in Hreg as [c Hc].
      destruct (Haccepted key c v Hne Hc Hv) as [c' Hload].
      destruct v as [n|sd|]; [done|by exists sd|done].
    + intros key Hin. by apply keys_remove_iteration in Hin as [_ ?].
  - intros Hunmatched. rewrite load_keys_unmatched; [done|].
    intros key Hin. apply keys_remove_iteration in Hin as [Hne [v Hv]].
    rewrite get_remove_ne in Hv by done.
    destruct (get (checkpointables (self w)) key) as [c|] eqn:Hc; [|done].
    rewrite Hunmatched in Hv; [done|done|].
    apply contains_true. by rewrite Hc.
Qed.

(** C9.  With a checkpointable registered as ["iteration"], the file that
    [step(i, ...)] writes stores the integer [i] under that name, not the
    object's state dict, and [load] of any file, in any later state of the
    manager, leaves the object registered as ["iteration"] as it was. *)
Theorem iteration_name_is_shadowed w iteration metric c :
  get (checkpointables (self w)) "iteration" = Some c ->
  (exists file,
     disk (final (step iteration metric w)) !! iteration_path (self w) iteration
       = Some file /\
     get file "iteration" = Some (VInt iteration) /\
     get file "iteration" <> Some (VState (get_state_dict c))) /\
  (forall path w',
     get (checkpointables (self (final (load path w')))) "iteration"
     = get (checkpointables (self w')) "iteration").
Proof.
  intros Hc. split.
  - exists (snapshot iteration (self w)).
    rewrite step_writes_snapshot, snapshot_iteration. by repeat split.
  - intros path w'. destruct (disk w' !! path) as [file|] eqn:Hfile.
    + rewrite (final_load _ _ _ Hfile).
      apply load_keys_frame, get_None_keys, get_remove_eq.
    + by rewrite load_missing_file.
Qed.

(** On a fresh manager a metric that does not exceed the initial
    [_best_metric] leaves the best record empty. *)
Lemma fresh_step_low_metric dir limit registry files iteration q :
  Qle q best_metric_init ->
  _best_ckpt (self (final (step iteration (Some q)
     (Build_world (state_dict:=state_dict)
        (__init__ dir limit registry) files)))) = [].
Proof.
  intros Hle. rewrite step_best_record. unfold improves, Qgt_bool. simpl.
  by apply Qle_bool_iff in Hle as ->.
Qed.

End LoadClaims.

Section ManagerExamples.
Import Checkpointing.

Lemma load_leaves_unmatched_untouched_witness :
  let w := Examples.partial_file in
  get (checkpointables (self (final (load "/tmp/ckpt/old.pth" w)))) "optimizer"
  = Some (Parallel [("lr", 1)]).
Proof.
  apply (load_leaves_unmatched_untouched "/tmp/ckpt/old.pth"
           Examples.partial_file [("model", VState [("weight", 5)])]
           "optimizer").
  - reflexivity.
  - reflexivity.
Defined.

Lemma load_returns_stored_iteration_witness :
  let w := final (step 3 None (Examples.fresh 10)) in
  let file := snapshot 3 (self (Examples.fresh 10)) in
  (forall r w', load "/tmp/ckpt/checkpoint_3.pth" w = Returned r w' ->
                r = VInt 3) /\
  ((forall key c v,
      key <> "iteration" ->
      get (checkpointables (self w)) key = Some c ->
      get file key = Some v ->
      exists c', load_state_dict c v = inr c') ->
   exists w', load "/tmp/ckpt/checkpoint_3.pth" w = Returned (VInt 3) w') /\
  ((forall key,
      key <> "iteration" ->
      contains (checkpointables (self w)) key = true ->
      get file key = None) ->
   load "/tmp/ckpt/checkpoint_3.pth" w = Returned (VInt 3) w).
Proof.
  apply (load_returns_stored_iteration "/tmp/ckpt/checkpoint_3.pth"
           (final (step 3 None (Examples.fresh 10)))
           (snapshot 3 (self (Examples.fresh 10)))).
  vm_compute. reflexivity.
Defined.

Lemma iteration_name_is_shadowed_witness :
  (exists file,
     disk (final (step 7 None Examples.clash))
       !! iteration_path (self Examples.clash) 7 = Some file /\
     get file "iteration" = Some (VInt 7) /\
     get file "iteration" <> Some (VState [("count", 42)])) /\
  (forall path (w' : world Examples.tensors),
     get (checkpointables (self (final (load path w')))) "iteration"
     = get (checkpointables (self w')) "iteration").
Proof.
  apply (iteration_name_is_shadowed Examples.clash 7 None
           (Plain [("count", 42)])).
  reflexivity.
Defined.

(** C1 fails on the code.  The first call passes the metric [-1/2], the
    highest metric seen so far; the call returns, the file of the iteration
    holds the state captured at the call, and [checkpoint_best.pth] holds an
    empty record: the metric does not exceed the initial [-1e-12]. *)
Theorem best_checkpoint_misses_negative_metric :
  let w := Examples.fresh 10 in
  let out := step 0 (Some (Qmake (-1) 2)) w in
  returns out = true /\
  disk (final out) !! "/tmp/ckpt/checkpoint_0.pth"
  = Some (snapshot 0 (self w)) /\
  snapshot 0 (self w) <> [] /\
  disk (final out) !! "/tmp/ckpt/checkpoint_best.pth" = Some [] /\
  _best_metric (self (final out)) = best_metric_init.
Proof. vm_compute. by repeat split. Qed.

(** C2 fails on the code.  With [keep_recent = 1] the second call to [step]
    raises [AttributeError] at [self._serialization_dir], after the queue
    was popped and before any file is removed: two per-iteration files
    remain where one should. *)
Theorem eviction_raises_and_keeps_files :
  let out1 := step 0 None (Examples.fresh 1) in
  let out2 := step 1 None (final out1) in
  returns out1 = true /\
  exists w',
    out2 = Raised (AttributeError "_serialization_dir") w' /\
    _recent_iterations (self w') = [1] /\
    iteration_files w'
    = {[ "/tmp/ckpt/checkpoint_0.pth"; "/tmp/ckpt/checkpoint_1.pth" ]} /\
    size (iteration_files w') = 2%nat.
Proof.
  split; [reflexivity|]. eexists. split; [vm_compute; reflexivity|].
  split; [reflexivity|]. split; [|reflexivity].
  vm_compute. reflexivity.
Qed.

End ManagerExamples.

(** ** The evaluator *)

Section EvaluatorFacts.
Import Evaluator.
Context {batch metrics : Type}.
Variable forward : model metrics -> batch -> exn + model metrics.
Variable to_device : string -> batch -> batch.
Implicit Types (w : world batch metrics) (m : model metrics).
Implicit Types (models : dict (model metrics)) (num_batches : option Z).

Abbreviation _do_iteration := (_do_iteration forward).
Abbreviation batch_loop := (batch_loop forward to_device).
Abbreviation eval_phase := (eval_phase forward to_device).
Abbreviation evaluate := (evaluate forward to_device).

Lemma training_train mode m : training (train mode m) = mode.
Proof. by destruct m. Qed.

Lemma in_mode_train mode m : in_mode mode (train mode m) = true.
Proof.
  induction m as [t g|t g inner IH]; simpl.
  - by apply bool_decide_eq_true.
  - rewrite IH. by rewrite bool_decide_eq_true_2.
Qed.

Lemma get_metrics_train mode m : get_metrics (train mode m) = get_metrics m.
Proof. by destruct m. Qed.

Lemma exposed_metrics_train mode m :
  exposed_metrics (train mode m) = exposed_metrics m.
Proof.
  destruct m as [t g|t g inner]; simpl; [done|].
  unfold exposed_metrics; simpl. by rewrite get_metrics_train.
Qed.

(** One round of the metrics loop writes the entry of its model, if the
    model exposes metrics, and no other. *)
Lemma get_collect model_name m (eval_metrics : dict metrics) name :
  get (collect model_name m eval_metrics) name =
    if decide (name = model_name)
    then match exposed_metrics m with
         | Some v => Some v
         | None => get eval_metrics name
         end
    else get eval_metrics name.
Proof.
  unfold collect, exposed_metrics.
  destruct (decide (name = model_name)) as [->|Hne].
  - destruct (get_metrics m) as [v|]; [apply get_set_eq|].
    destruct m as [t g|t g inner]; [done|].
    destruct (get_metrics inner); [apply get_set_eq|done].
  - destruct (get_metrics m) as [v|]; [by apply get_set_ne|].
    destruct m as [t g|t g inner]; [done|].
    destruct (get_metrics inner); [by apply get_set_ne|done].
Qed.

Lemma get_collect_metrics models name :
  get (collect_metrics models) name = get models name ≫= exposed_metrics.
Proof.
  unfold collect_metrics.
  assert (forall ks (acc : dict metrics),
    get (fold_left
           (fun eval_metrics model_name =>
              match get models model_name with
              | Some m => collect model_name m eval_metrics
              | None => eval_metrics
              end) ks acc) name =
      if decide (name ∈ ks)
      then match get models name ≫= exposed_metrics with
           | Some v => Some v
           | None => get acc name
           end
      else get acc name) as Hfold.
  { induction ks as [|key ks IH]; intros acc; simpl.
    - done.
    - rewrite IH. clear IH.
      assert (get (match get models key with
                   | Some m => collect key m acc
                   | None => acc
                   end) name =
                if decide (name = key)
                then match get models name ≫= exposed_metrics with
                     | Some v => Some v
                     | None => get acc name
                     end
                else get acc name) as ->.
      { destruct (decide (name = key)) as [->|Hne].
        - destruct (get models key) as [m|]; simpl; [|done].
          by rewrite get_collect, decide_True.
        - destruct (get models key) as [m|]; simpl; [|done].
          by rewrite get_collect, decide_False. }
      destruct (decide (name = key)) as [->|Hne].
      + rewrite (decide_True (P := key ∈ key :: ks)) by left.
        destruct (decide (key ∈ ks)); [|done].
        by destruct (get models key ≫= exposed_metrics).
      + destruct (decide (name ∈ ks)) as [Hin|Hin].
        * by rewrite decide_True by (by right).
        * rewrite decide_False; [done|]. by intros [?|?]%elem_of_cons. }
  rewrite Hfold. simpl.
  destruct (decide (name ∈ keys models)) as [Hin|Hin].
  - by destruct (get models name ≫= exposed_metrics).
  - apply get_None_keys in Hin. by rewrite Hin.
Qed.

(** A call to [_do_iteration] logs its batch and keeps the names of the
    registry, whether the forward pass returns or raises. *)
Lemma do_iteration_final b w :
  processed (final (_do_iteration b w)) = (processed w ++ [b])%list /\
  _dataloader (self (final (_do_iteration b w))) = _dataloader (self w) /\
  _device (self (final (_do_iteration b w))) = _device (self w) /\
  forall name,
    contains (_models (self (final (_do_iteration b w)))) name
    = contains (_models (self w)) name.
Proof.
  unfold Evaluator._do_iteration. run_monad.
  destruct (get (_models (self w)) "model") as [m|] eqn:Hm; [|done].
  destruct (forward m b) as [e|m']; simpl; [done|].
  repeat split. intros name. apply contains_set, contains_true.
  by rewrite Hm.
Qed.

Lemma batch_loop_contains num_batches iteration batches w name :
  contains (_models (self (final (batch_loop num_batches iteration batches w))))
    name
  = contains (_models (self w)) name.
Proof.
  revert iteration w. induction batches as [|b rest IH]; intros iteration w;
    [done|].
  simpl. run_monad.
  destruct (do_iteration_final (to_device (_device (self w)) b) w)
    as (_ & _ & _ & Hnames).
  destruct (_do_iteration _ w) as [[] w1|e w1]; simpl in *; [|done].
  destruct (limit_reached num_batches iteration); simpl; [done|].
  by rewrite IH.
Qed.

(** How many batches the loop hands over when it runs to its end. *)
Lemma batch_loop_processed num_batches iteration batches w w' :
  batch_loop num_batches iteration batches w = Returned tt w' ->
  batches_processed w w' =
    match num_batches with
    | Some n =>
        Z.min (Z.of_nat (length batches)) (Z.max 1 (n - iteration + 2))
    | None => Z.of_nat (length batches)
    end.
Proof.
  unfold batches_processed.
  revert iteration w. induction batches as [|b rest IH]; intros iteration w.
  { simpl. intros [= <-]. destruct num_batches; lia. }
  simpl. run_monad.
  destruct (do_iteration_final (to_device (_device (self w)) b) w)
    as (Hlog & _).
  destruct (_do_iteration _ w) as [[] w1|e w1]; simpl in *; [|done].
  assert (Z.of_nat (length (processed w1))
          = Z.of_nat (length (processed w)) + 1) as Hone
    by (rewrite Hlog, length_app; simpl; lia).
  unfold limit_reached. destruct num_batches as [n|].
  - destruct (Z.gtb_spec iteration n) as [Hgt|Hle].
    + intros [= <-]. lia.
    + intros Hrest. apply IH in Hrest. lia.
  - intros Hrest. apply IH in Hrest. lia.
Qed.

Lemma evaluate_unfold num_batches w :
  evaluate num_batches w =
    match eval_phase num_batches w with
    | Returned _ w1 =>
        Returned (collect_metrics (_models (self w1)))
          (set_models (map_values (train true) (_models (self w1))) w1)
    | Raised e w1 => Raised e w1
    end.
Proof.
  unfold Evaluator.evaluate, Evaluator.eval_phase. run_monad.
  by destruct (batch_loop _ _ _ _).
Qed.

Lemma eval_phase_contains num_batches w name :
  contains (_models (self (final (eval_phase num_batches w)))) name
  = contains (_models (self w)) name.
Proof.
  unfold Evaluator.eval_phase. run_monad. rewrite batch_loop_contains. simpl.
  unfold contains. rewrite get_map_values. by destruct (get _ name).
Qed.

(** C4.  Whenever [evaluate] returns, every model that was in the registry
    when it was called is still registered and, with every module it wraps,
    in training mode, whatever metrics were or were not collected; and the
    registry holds no model that is not in training mode. *)
Theorem evaluate_ends_in_training_mode num_batches w eval_metrics w' :
  evaluate num_batches w = Returned eval_metrics w' ->
  (forall name m,
     get (_models (self w)) name = Some m ->
     exists m',
       get (_models (self w')) name = Some m' /\
       training m' = true /\ in_mode true m' = true) /\
  (forall name m',
     get (_models (self w')) name = Some m' ->
     training m' = true /\ in_mode true m' = true).
Proof.
  intros Hrun.
  pose proof (eval_phase_contains num_batches w) as Hnames.
  rewrite evaluate_unfold in Hrun.
  destruct (eval_phase num_batches w) as [[] w1|e w1]; [|done].
  injection Hrun as <- <-. simpl in *. split.
  - intros name m Hm. specialize (Hnames name).
    unfold contains in Hnames. rewrite Hm in Hnames.
    destruct (get (_models (self w1)) name) as [m1|] eqn:Hm1; [|done].
    exists (train true m1). rewrite get_map_values, Hm1.
    split; [done|]. split; [apply training_train | apply in_mode_train].
  - intros name m'. rewrite get_map_values.
    destruct (get (_models (self w1)) name) as [m1|]; simpl; [|done].
    intros [= <-]. split; [apply training_train | apply in_mode_train].
Qed.

(** C3, as amended.  After [evaluate] returns, every model registered
    before the call is still registered and is in training mode, whatever
    its mode before: its mode equals its mode prior to the call exactly when
    it was in training mode then. *)
Theorem evaluate_mode_after num_batches w eval_metrics w' name m :
  evaluate num_batches w = Returned eval_metrics w' ->
  get (_models (self w)) name = Some m ->
  exists m',
    get (_models (self w')) name = Some m' /\
    training m' = true /\
    (training m' = training m <-> training m = true).
Proof.
  intros Hrun Hm.
  pose proof (eval_phase_contains num_batches w name) as Hnames.
  rewrite evaluate_unfold in Hrun.
  destruct (eval_phase num_batches w) as [[] w1|e w1]; [|done].
  injection Hrun as <- <-. simpl in *.
  unfold contains in Hnames. rewrite Hm in Hnames.
  destruct (get (_models (self w1)) name) as [m1|] eqn:Hm1; [|done].
  exists (train true m1). rewrite get_map_values, Hm1, training_train.
  repeat split; congruence.
Qed.

(** C10, as amended.  When [evaluate(num_batches=n)] returns, the number of
    batches handed to [_do_iteration] is [min(B, max(1, n + 2))] for a
    loader of [B] batches: [min(B, n + 2)] whenever [n >= -1], and
    [min(B, 1)] for a smaller [n]. *)
Theorem evaluate_batches_processed n w eval_metrics w' :
  evaluate (Some n) w = Returned eval_metrics w' ->
  let available := Z.of_nat (length (_dataloader (self w))) in
  batches_processed w w' = Z.min available (Z.max 1 (n + 2)) /\
  (-1 <= n -> batches_processed w w' = Z.min available (n + 2)).
Proof.
  rewrite evaluate_unfold. unfold Evaluator.eval_phase. run_monad.
  destruct (batch_loop _ _ _ _) as [[] w1|e w1] eqn:Hloop; [|done].
  intros [= <- <-]. apply batch_loop_processed in Hloop.
  unfold batches_processed in *. simpl in *. lia.
Qed.

End EvaluatorFacts.

Section EvaluatorExamples.
Import Evaluator.

Abbreviation run_evaluate :=
  (evaluate Examples.accumulate Examples.to_device).

Lemma evaluate_ends_in_training_mode_witness :
  let w := Examples.evaluator in
  let out := run_evaluate (Some 1) w in
  (forall name m,
     get (_models (self w)) name = Some m ->
     exists m',
       get (_models (self (final out))) name = Some m' /\
       training m' = true /\ in_mode true m' = true) /\
  (forall name m',
     get (_models (self (final out))) name = Some m' ->
     training m' = true /\ in_mode true m' = true).
Proof.
  eapply (evaluate_ends_in_training_mode Examples.accumulate
            Examples.to_device (Some 1) Examples.evaluator).
  lazy. reflexivity.
Defined.

(** C3, as stated, fails for a model that was in eval mode before the call:
    [evaluate] returns and leaves it in training mode. *)
Lemma evaluate_changes_eval_mode :
  let w := Examples.evaluator in
  let out := run_evaluate None w in
  returns out = true /\
  training <$> get (_models (self w)) "frozen" = Some false /\
  training <$> get (_models (self (final out))) "frozen" = Some true.
Proof. vm_compute. by repeat split. Qed.

Lemma evaluate_mode_after_witness :
  exists m',
    get (_models (self (final (run_evaluate None Examples.evaluator)))) "frozen"
    = Some m' /\
    training m' = true /\
    (training m' = training (NNModule (metrics:=Z) false None)
     <-> training (NNModule (metrics:=Z) false None) = true).
Proof.
  eapply (evaluate_mode_after Examples.accumulate Examples.to_device None
            Examples.evaluator _ _ "frozen" (NNModule false None)).
  - lazy. reflexivity.
  - reflexivity.
Defined.

(** C10, as stated, fails for a limit below [-1]: with [num_batches = -2]
    and five batches available one batch is processed, and
    [min(5, -2 + 2)] is zero. *)
Lemma evaluate_negative_limit_processes_one :
  let w := Examples.evaluator in
  let out := run_evaluate (Some (-2)) w in
  returns out = true /\
  batches_processed w (final out) = 1 /\
  Z.min (Z.of_nat (length (_dataloader (self w)))) (-2 + 2) = 0.
Proof. vm_compute. by repeat split. Qed.

Lemma evaluate_batches_processed_witness :
  let w := Examples.evaluator in
  let out := run_evaluate (Some 1) w in
  batches_processed w (final out) = Z.min 5 (Z.max 1 (1 + 2)) /\
  (-1 <= 1 -> batches_processed w (final out) = Z.min 5 (1 + 2)).
Proof.
  eapply (evaluate_batches_processed Examples.accumulate Examples.to_device
            1 Examples.evaluator).
  lazy. reflexivity.
Defined.

End EvaluatorExamples.

(** ** Further properties of [step] *)

Section StepProperties.
Import Checkpointing.
Context {state_dict : Type}.
Implicit Types (w : world state_dict) (iteration : Z) (metric : option Q).

(** X1.  Whether [step] returns or raises, the file of the iteration holds
    the iteration number under ["iteration"] and, under every other name,
    the state dict of the checkpointable registered under it, and nothing
    for a name that is not registered. *)
Theorem step_file_contents w iteration metric :
  exists file,
    disk (final (step iteration metric w)) !! iteration_path (self w) iteration
    = Some file /\
    get file "iteration" = Some (VInt iteration) /\
    forall name,
      name <> "iteration" ->
      get file name
      = (fun c => VState (get_state_dict c))
          <$> get (checkpointables (self w)) name.
Proof.
  exists (snapshot iteration (self w)). split; [apply step_writes_snapshot|].
  split; [apply get_set_eq|]. intros name Hne.
  unfold snapshot. rewrite get_set_ne by done. apply get_map_values.
Qed.

(** X2.  [step] returns exactly when the queue of recent iterations is
    shorter than [keep_recent]; in every other state it raises
    [AttributeError] for [_serialization_dir], never [IndexError] and never
    [FileNotFoundError]. *)
Theorem step_returns_iff_room w iteration metric :
  exists w',
    step iteration metric w =
      if bool_decide (Z.of_nat (length (_recent_iterations (self w)))
                      < keep_recent (self w))
      then Returned tt w'
      else Raised (AttributeError "_serialization_dir") w'.
Proof.
  case_bool_decide as Hroom.
  - eexists. apply step_returns_when_room. lia.
  - destruct (step_raises_when_full iteration metric w) as [w' Hraise];
      [lia|]. by exists w'.
Qed.

(** X3.  [step] writes two files and no other: every other path of the disk
    keeps what it had, and the registered objects, the directory and
    [keep_recent] are left as they were. *)
Theorem step_touches_two_files w iteration metric path :
  path <> iteration_path (self w) iteration ->
  path <> best_path (self w) ->
  let w' := final (step iteration metric w) in
  disk w' !! path = disk w !! path /\
  checkpointables (self w') = checkpointables (self w) /\
  serialization_dir (self w') = serialization_dir (self w) /\
  keep_recent (self w') = keep_recent (self w).
Proof.
  intros Hiter Hbest w'. subst w'. split; [|split; [|split]].
  - rewrite step_final_disk. by rewrite !lookup_insert_ne.
  - apply step_final_checkpointables.
  - apply step_final_serialization_dir.
  - rewrite step_unfold.
    destruct (_ >? _); [destruct (_ ++ _)%list|]; simpl;
      apply after_best_frame.
Qed.

(** X4.  [remove_earliest_checkpoint] never returns and never removes a
    file: on an empty queue it raises [IndexError]; otherwise it drops the
    earliest iteration from the queue and raises [AttributeError]. *)
Theorem remove_earliest_checkpoint_raises w :
  remove_earliest_checkpoint w =
    Raised
      (match _recent_iterations (self w) with
       | [] => IndexError
       | _ :: _ => AttributeError "_serialization_dir"
       end)
      (set_recent_iterations (tail (_recent_iterations (self w))) w).
Proof.
  unfold remove_earliest_checkpoint, pop_earliest. run_monad.
  destruct w as [[dir limit registry best ckpt recent] files]; simpl.
  by destruct recent.
Qed.

End StepProperties.

(** ** Further properties of a training loop *)

Section RunProperties.
Import Checkpointing.
Context {state_dict : Type}.
Implicit Types (w : world state_dict) (c : call state_dict).
Implicit Types (calls : list (call state_dict)).

Lemma run_call_keep_recent w c :
  keep_recent (self (run_call w c)) = keep_recent (self w).
Proof.
  unfold run_call. rewrite step_unfold.
  destruct (_ >? _); [destruct (_ ++ _)%list|]; simpl;
    apply (after_best_frame _ _ (train_to (objects c) w)).
Qed.

Lemma run_keep_recent calls w :
  keep_recent (self (run calls w)) = keep_recent (self w).
Proof.
  induction calls as [|c calls IH] using rev_ind; [done|].
  by rewrite run_snoc, run_call_keep_recent.
Qed.

(** The queue after one call: the iteration is appended, and the earliest
    entry dropped when that makes the queue longer than [keep_recent]. *)
Lemma run_call_recent w c :
  _recent_iterations (self (run_call w c)) =
    if Z.of_nat (length (_recent_iterations (self w) ++ [call_iteration c])%list)
       >? keep_recent (self w)
    then tail (_recent_iterations (self w) ++ [call_iteration c])%list
    else (_recent_iterations (self w) ++ [call_iteration c])%list.
Proof.
  unfold run_call. rewrite step_unfold.
  destruct w as [[dir limit registry best ckpt recent] files].
  cbn [set_checkpointables self _recent_iterations keep_recent].
  destruct (_ >? _); [destruct recent|]; reflexivity.
Qed.

Lemma run_recent_length calls w :
  Z.of_nat (length (_recent_iterations (self w))) <= keep_recent (self w) ->
  Z.of_nat (length (_recent_iterations (self (run calls w)))) =
    Z.min (Z.of_nat (length (_recent_iterations (self w)) + length calls))
      (keep_recent (self w)).
Proof.
  intros Hroom.
  induction calls as [|c calls IH] using rev_ind.
  { simpl. lia. }
  rewrite run_snoc, run_call_recent, run_keep_recent.
  rewrite !length_app. simpl.
  match goal with |- context [?a >? ?b] => destruct (Z.gtb_spec a b) end.
  - destruct (_recent_iterations (self (run calls w))) as [|i queue];
      simpl in *; rewrite ?length_app; simpl; lia.
  - rewrite length_app. simpl. lia.
Qed.

(** X5.  Over a training loop the queue of recent iterations holds the last
    [keep_recent] iterations passed to [step], oldest first, whether the
    calls returned or raised. *)
Theorem run_queue_holds_most_recent calls w :
  Z.of_nat (length (_recent_iterations (self w))) <= keep_recent (self w) ->
  let seen :=
    (_recent_iterations (self w) ++ (call_iteration <$> calls))%list in
  _recent_iterations (self (run calls w))
  = drop (length seen - Z.to_nat (keep_recent (self w))) seen.
Proof.
  intros Hroom seen. subst seen.
  induction calls as [|c calls IH] using rev_ind.
  { simpl. rewrite app_nil_r.
    replace (_ - _)%nat with 0%nat by lia. done. }
  rewrite run_snoc, run_call_recent, run_keep_recent, IH.
  rewrite fmap_app, app_assoc. simpl.
  set (seen := (_recent_iterations (self w) ++ (call_iteration <$> calls))%list).
  set (limit := Z.to_nat (keep_recent (self w))).
  rewrite !length_app, length_drop. simpl.
  destruct (Z.gtb_spec
              (Z.of_nat (length seen - (length seen - limit) + 1))
              (keep_recent (self w))) as [Hfull|Hfits].
  - replace (length seen + 1 - limit)%nat
      with ((length seen - limit) + 1)%nat by lia.
    rewrite <- drop_drop. rewrite drop_app_le by lia.
    by destruct (drop _ seen ++ _)%list.
  - replace (length seen - limit)%nat with 0%nat by lia.
    replace (length seen + 1 - limit)%nat with 0%nat by lia. done.
Qed.

(** X6.  A manager that starts with an empty queue accepts [keep_recent]
    calls to [step]: its call number [n + 1] returns exactly when
    [n < keep_recent], and every later call raises. *)
Theorem step_accepts_keep_recent_calls calls w c :
  _recent_iterations (self w) = [] ->
  returns (run_step calls w c)
  = bool_decide (Z.of_nat (length calls) < keep_recent (self w)).
Proof.
  intros Hempty. unfold run_step.
  set (w1 := train_to (objects c) (run calls w)).
  assert (keep_recent (self w1) = keep_recent (self w)) as Hlimit
    by apply run_keep_recent.
  destruct (Z.le_gt_cases 0 (keep_recent (self w))) as [Hnat|Hneg].
  - assert (Z.of_nat (length (_recent_iterations (self w1)))
            = Z.min (Z.of_nat (length calls)) (keep_recent (self w)))
      as Hqueue.
    { subst w1. simpl. rewrite run_recent_length; rewrite Hempty; simpl; lia. }
    case_bool_decide as Hcalls.
    + rewrite step_returns_when_room; [done|lia].
    + destruct (step_raises_when_full (call_iteration c) (call_metric c) w1)
        as [w' ->]; [lia|done].
  - rewrite bool_decide_eq_false_2 by lia.
    destruct (step_raises_when_full (call_iteration c) (call_metric c) w1)
      as [w' ->]; [lia|done].
Qed.

Lemma run_call_iteration_files w c :
  iteration_files (run_call w c) =
    iteration_files w ∪ {[ iteration_path (self w) (call_iteration c) ]}.
Proof.
  unfold iteration_files, best_path, run_call.
  rewrite step_final_serialization_dir, step_final_disk.
  change (serialization_dir (self (train_to (objects c) w)))
    with (serialization_dir (self w)).
  change (disk (train_to (objects c) w)) with (disk w).
  change (best_path (self (train_to (objects c) w)))
    with (path_join (serialization_dir (self w)) best_file).
  change (iteration_path (self (train_to (objects c) w))
            (call_iteration c))
    with (iteration_path (self w) (call_iteration c)).
  rewrite delete_insert_eq.
  rewrite delete_insert_ne by (symmetry; apply checkpoint_path_not_best).
  rewrite dom_insert_L. apply (comm_L (∪)).
Qed.

(** X7.  The per-iteration files on disk after a training loop are those
    that were there before and one for every iteration passed to [step]:
    no call removes any, whatever [keep_recent] is. *)
Theorem run_iteration_files calls w :
  iteration_files (run calls w) =
    iteration_files w
    ∪ list_to_set
        ((fun c => iteration_path (self w) (call_iteration c)) <$> calls).
Proof.
  induction calls as [|c calls IH] using rev_ind.
  { simpl. by rewrite (right_id_L ∅ (∪)). }
  rewrite run_snoc, run_call_iteration_files, IH.
  rewrite fmap_app, list_to_set_app_L. simpl.
  unfold iteration_path. rewrite run_serialization_dir.
  rewrite (right_id_L ∅ (∪)). by rewrite (assoc_L (∪)).
Qed.

(** X8.  Over a training loop the recorded [_best_metric] never decreases,
    and it is at least every metric passed to [step]. *)
Theorem run_best_metric_dominates calls w :
  Qle (_best_metric (self w)) (_best_metric (self (run calls w))) /\
  forall c q,
    c ∈ calls -> call_metric c = Some q ->
    Qle q (_best_metric (self (run calls w))).
Proof.
  split; [|intros c q; apply run_best_metric_bound].
  induction calls as [|c calls IH] using rev_ind; [apply Qle_refl|].
  rewrite run_snoc.
  eapply Qle_trans; [apply IH | apply run_call_best_metric_mono].
Qed.

End RunProperties.

(** ** Further properties of [load] *)

Section LoadProperties.
Import Checkpointing.
Context {state_dict : Type}.
Implicit Types (w : world state_dict).
Implicit Types (file checkpoint : dict (value state_dict)).

Lemma set_get_id {V} (d : dict V) k v : get d k = Some v -> set k v d = d.
Proof.
  induction d as [|[k' v'] d IH]; simpl; [done|].
  destruct (decide (k = k')) as [->|Hne].
  - by intros [= ->].
  - intros Hget. by rewrite IH.
Qed.

Lemma set_checkpointables_id w :
  set_checkpointables (checkpointables (self w)) w = w.
Proof. by destruct w as [[] ?]. Qed.

Lemma get_share_eq key sd (ckpt : dict (value state_dict)) :
  get (share key sd ckpt) key =
    match get ckpt key with
    | Some (VState _) => Some (VState sd)
    | other => other
    end.
Proof.
  unfold share. destruct (get ckpt key) as [[n|s0|]|] eqn:Hget; try done.
  apply get_set_eq.
Qed.

Lemma get_share_ne key key' sd (ckpt : dict (value state_dict)) :
  key <> key' -> get (share key sd ckpt) key' = get ckpt key'.
Proof.
  intros Hne. unfold share. destruct (get ckpt key) as [[n|s0|]|]; try done.
  by apply get_set_ne.
Qed.

(** The entry of a dictionary under [key] shows [sd] already. *)
Lemma share_fixed key sd (ckpt : dict (value state_dict)) :
  share key sd ckpt = ckpt <->
  forall s0, get ckpt key = Some (VState s0) -> s0 = sd.
Proof.
  unfold share. split.
  - intros Hsame s0 Hget. rewrite Hget in Hsame.
    pose proof (get_set_eq ckpt key (VState sd)) as Hnew.
    rewrite Hsame, Hget in Hnew. by injection Hnew.
  - intros Hshows. destruct (get ckpt key) as [[n|s0|]|] eqn:Hget; try done.
    rewrite (Hshows s0 eq_refl) in Hget. by apply set_get_id.
Qed.

Lemma loaded_contains key (c : checkpointable state_dict) w name :
  contains (checkpointables (self w)) key = true ->
  contains (checkpointables (self (loaded key c w))) name
  = contains (checkpointables (self w)) name.
Proof. intros Hkey. unfold loaded. simpl. by apply contains_set. Qed.

(** The loop changes states only: the rest of the manager, the disk, and
    the names and kinds of the registered objects stay. *)
Lemma load_keys_manager checkpoint ks w :
  let w' := final (load_keys checkpoint ks w) in
  disk w' = disk w /\
  serialization_dir (self w') = serialization_dir (self w) /\
  keep_recent (self w') = keep_recent (self w) /\
  _best_metric (self w') = _best_metric (self w) /\
  _recent_iterations (self w') = _recent_iterations (self w) /\
  forall name,
    is_parallel <$> get (checkpointables (self w')) name
    = is_parallel <$> get (checkpointables (self w)) name.
Proof.
  revert w. induction ks as [|key ks IH]; intros w; [done|].
  simpl. run_monad.
  destruct (get (checkpointables (self w)) key) as [c|] eqn:Hc;
    [|apply IH].
  destruct (get checkpoint key) as [v|]; [|done].
  destruct (load_state_dict c v) as [e|c'] eqn:Hload; [done|].
  simpl.
  destruct (IH (loaded key c' w)) as (? & ? & ? & ? & ? & Hkinds).
  repeat split; try done. intros name. rewrite Hkinds. simpl.
  destruct (decide (key = name)) as [<-|Hne].
  - rewrite get_set_eq, Hc. simpl.
    destruct v; simplify_eq/=. unfold restore. by destruct c.
  - by rewrite get_set_ne.
Qed.

(** A loop that has run to its end found a state dict of the object in
    every entry it handed over. *)
Lemma load_keys_returned checkpoint ks w w' :
  load_keys checkpoint ks w = Returned tt w' ->
  forall key,
    key ∈ ks -> contains (checkpointables (self w)) key = true ->
    exists sd, get checkpoint key = Some (VState sd).
Proof.
  revert w. induction ks as [|key ks IH]; intros w Hrun key' Hin Hreg.
  { by apply elem_of_nil in Hin. }
  simpl in Hrun. run_monad.
  destruct (get (checkpointables (self w)) key) as [c|] eqn:Hc.
  - destruct (get checkpoint key) as [v|] eqn:Hv; [|done].
    destruct v as [n|sd|]; simpl in Hrun; try done.
    apply elem_of_cons in Hin as [->|Hin]; [by exists sd|].
    apply (IH _ Hrun key' Hin).
    rewrite loaded_contains; [done|]. apply contains_true. by rewrite Hc.
  - apply elem_of_cons in Hin as [->|Hin].
    + apply contains_true in Hreg as [? Hreg]. congruence.
    + by apply (IH _ Hrun key' Hin).
Qed.

(** ... and the best record shows the loaded state of every object it
    shares a state dict with. *)
Lemma load_keys_best checkpoint ks w w' :
  load_keys checkpoint ks w = Returned tt w' ->
  forall key sd,
    get checkpoint key = Some (VState sd) ->
    contains (checkpointables (self w)) key = true ->
    key ∈ ks \/ share key sd (_best_ckpt (self w)) = _best_ckpt (self w) ->
    share key sd (_best_ckpt (self w')) = _best_ckpt (self w').
Proof.
  revert w. induction ks as [|key ks IH]; intros w Hrun key' sd' Hentry Hreg Hin.
  { simpl in Hrun. injection Hrun as <-.
    destruct Hin as [Hin|Hshows]; [by apply elem_of_nil in Hin|done]. }
  simpl in Hrun. run_monad.
  destruct (get (checkpointables (self w)) key) as [c|] eqn:Hc.
  - destruct (get checkpoint key) as [v|] eqn:Hv; [|done].
    destruct v as [n|sd|]; simpl in Hrun; try done.
    apply (IH _ Hrun key' sd' Hentry).
    { rewrite loaded_contains; [done|]. apply contains_true. by rewrite Hc. }
    unfold loaded. simpl. rewrite restore_state.
    destruct (decide (key' = key)) as [->|Hne].
    + right. rewrite Hv in Hentry. injection Hentry as ->.
      apply share_fixed. intros s0. rewrite get_share_eq.
      destruct (get (_best_ckpt (self w)) key) as [[?|?|]|]; congruence.
    + destruct Hin as [Hin|Hshows].
      * apply elem_of_cons in Hin as [?|Hin]; [done|by left].
      * right. apply share_fixed. intros s0.
        rewrite get_share_ne by done. by apply share_fixed.
  - apply (IH _ Hrun key' sd' Hentry Hreg).
    destruct Hin as [Hin|Hshows]; [|by right].
    apply elem_of_cons in Hin as [->|Hin]; [|by left].
    apply contains_true in Hreg as [? Hreg]. congruence.
Qed.

(** What [load] does with a file whose matched entries are state dicts of
    the registered objects. *)
Lemma load_loadable path w file :
  disk w !! path = Some file ->
  loadable (checkpointables (self w)) file ->
  exists w',
    load path w = Returned (stored_iteration file) w' /\
    forall name,
      get (checkpointables (self w')) name =
        (fun c => match get (remove "iteration" file) name with
                  | Some (VState sd) => restore c sd
                  | _ => c
                  end) <$> get (checkpointables (self w)) name.
Proof.
  intros Hfile Hloadable. rewrite (load_unfold _ _ _ Hfile).
  set (checkpoint := remove "iteration" file).
  destruct (load_keys_loaded checkpoint (keys checkpoint) w)
    as (w' & Hrun & Hloaded).
  { intros key v Hin Hreg Hv. apply keys_remove_iteration in Hin as [Hne _].
    subst checkpoint. rewrite get_remove_ne in Hv by done.
    by eapply Hloadable. }
  { intros key Hin. by apply keys_remove_iteration in Hin as [_ ?]. }
  exists w'. rewrite Hrun. split; [done|]. intros name.
  destruct (get (checkpointables (self w)) name) as [c|] eqn:Hc; simpl.
  - destruct (get checkpoint name) as [v|] eqn:Hv.
    + assert (name ∈ keys checkpoint) as Hin by by eapply get_Some_keys.
      destruct (keys_remove_iteration file name Hin) as [Hne _].
      destruct (Hloadable name v) as [sd ->]; [done| | |].
      { apply contains_true. by rewrite Hc. }
      { subst checkpoint. by rewrite get_remove_ne in Hv. }
      by apply Hloaded.
    + apply get_None_keys in Hv.
      pose proof (load_keys_frame checkpoint (keys checkpoint) w name Hv)
        as Hframe.
      by rewrite Hrun, Hc in Hframe.
  - destruct (load_keys_manager checkpoint (keys checkpoint) w)
      as (_ & _ & _ & _ & _ & Hkinds).
    specialize (Hkinds name). rewrite Hrun, Hc in Hkinds. simpl in Hkinds.
    by destruct (get (checkpointables (self w')) name).
Qed.

(** A [load] that has returned found a file whose matched entries are state
    dicts of the registered objects. *)
Lemma load_returned_loadable path w file r w' :
  disk w !! path = Some file ->
  load path w = Returned r w' ->
  loadable (checkpointables (self w)) file.
Proof.
  intros Hfile Hrun key v Hne Hreg Hv.
  rewrite (load_unfold _ _ _ Hfile) in Hrun.
  destruct (load_keys _ _ w) as [[] w1|e w1] eqn:Hloop; [|done].
  destruct (load_keys_returned _ _ _ _ Hloop key) as [sd Hsd]; [|done|].
  - eapply get_Some_keys. by rewrite get_remove_ne.
  - rewrite get_remove_ne in Hsd by done. exists sd. congruence.
Qed.

Lemma loaded_id key (c : checkpointable state_dict) w :
  get (checkpointables (self w)) key = Some c ->
  share key (get_state_dict c) (_best_ckpt (self w)) = _best_ckpt (self w) ->
  loaded key c w = w.
Proof.
  intros Hc Hshows. unfold loaded. rewrite Hshows, (set_get_id _ _ _ Hc).
  by destruct w as [[] ?].
Qed.

(** A loop that finds every object already in the state it would load
    leaves the world as it is. *)
Lemma load_keys_fixed checkpoint ks w :
  (forall key c,
     key ∈ ks -> get (checkpointables (self w)) key = Some c ->
     exists sd,
       get checkpoint key = Some (VState sd) /\ restore c sd = c /\
       share key sd (_best_ckpt (self w)) = _best_ckpt (self w)) ->
  load_keys checkpoint ks w = Returned tt w.
Proof.
  induction ks as [|key ks IH]; intros Hfixed; [done|].
  simpl. run_monad.
  destruct (get (checkpointables (self w)) key) as [c|] eqn:Hc.
  - destruct (Hfixed key c) as (sd & -> & Hsame & Hshows); [left|done|].
    simpl. rewrite Hsame, loaded_id; [|done|].
    + apply IH. intros key' c' Hin. apply Hfixed. by right.
    + by rewrite <- Hsame, restore_state.
  - apply IH. intros key' c' Hin. apply Hfixed. by right.
Qed.

Lemma load_keeps_disk_and_names path w :
  disk (final (load path w)) = disk w /\
  forall name,
    contains (checkpointables (self (final (load path w)))) name
    = contains (checkpointables (self w)) name.
Proof.
  destruct (disk w !! path) as [file|] eqn:Hfile;
    [|by rewrite load_missing_file].
  rewrite (final_load _ _ _ Hfile).
  destruct (load_keys_manager (remove "iteration" file)
              (keys (remove "iteration" file)) w)
    as (Hdisk & _ & _ & _ & _ & Hkinds).
  split; [done|]. intros name. specialize (Hkinds name).
  unfold contains. by do 2 destruct (get _ name).
Qed.

(** X9.  [load] writes no file and registers nothing: the disk, the
    recorded best metric, the queue, the directory and [keep_recent] are as
    before, and every name stays registered with an object of the same
    kind, whether [load] returns or raises.  What changes are the states of
    the registered objects, and with them the state dicts that the best
    record shares. *)
Theorem load_changes_only_states path w :
  let w' := final (load path w) in
  disk w' = disk w /\
  serialization_dir (self w') = serialization_dir (self w) /\
  keep_recent (self w') = keep_recent (self w) /\
  _best_metric (self w') = _best_metric (self w) /\
  _recent_iterations (self w') = _recent_iterations (self w) /\
  forall name,
    is_parallel <$> get (checkpointables (self w')) name
    = is_parallel <$> get (checkpointables (self w)) name.
Proof.
  destruct (disk w !! path) as [file|] eqn:Hfile.
  - rewrite (final_load _ _ _ Hfile). apply load_keys_manager.
  - by rewrite load_missing_file.
Qed.

(** X10.  Loading a checkpoint twice is loading it once: after a [load]
    that has returned, a second [load] of the same path returns the same
    value and leaves the manager as the first one left it. *)
Theorem load_twice path w file r w' :
  disk w !! path = Some file ->
  load path w = Returned r w' ->
  load path w' = Returned r w'.
Proof.
  intros Hfile Hfirst.
  pose proof (load_returned_loadable _ _ _ _ _ Hfile Hfirst) as Hloadable.
  destruct (load_loadable path w file Hfile Hloadable) as (w1 & Hrun & Hstates).
  rewrite Hrun in Hfirst. injection Hfirst as <- <-.
  assert (disk w1 !! path = Some file) as Hfile'.
  { destruct (load_keeps_disk_and_names path w) as [Hdisk _].
    rewrite Hrun in Hdisk. simpl in Hdisk. by rewrite Hdisk. }
  rewrite (load_unfold _ _ _ Hfile) in Hrun.
  destruct (load_keys _ _ w) as [[] w2|e w2] eqn:Hloop; [|done].
  injection Hrun as ->.
  rewrite (load_unfold _ _ _ Hfile').
  rewrite load_keys_fixed; [done|].
  intros key c' Hin Hc'.
  destruct (keys_remove_iteration _ _ Hin) as [Hne [v Hv]].
  rewrite Hstates in Hc'.
  destruct (get (checkpointables (self w)) key) as [c|] eqn:Hc;
    simplify_eq/=.
  destruct (Hloadable key v) as [sd ->];
    [done| |by rewrite get_remove_ne in Hv|].
  { apply contains_true. by rewrite Hc. }
  rewrite Hv. exists sd. split; [done|]. split; [apply restore_restore|].
  apply (load_keys_best _ _ _ _ Hloop key sd Hv); [|by left].
  apply contains_true. by rewrite Hc.
Qed.

End LoadProperties.

Section BestFileProperties.
Import Checkpointing.
Context {state_dict : Type}.
Implicit Types (w : world state_dict) (iteration : Z) (metric : option Q).

Lemma snapshot_loadable (registry : dict (checkpointable state_dict))
    iteration (m : CheckpointManager state_dict) :
  loadable registry (snapshot iteration m).
Proof.
  intros key v Hne _ Hv. unfold snapshot in Hv.
  rewrite get_set_ne in Hv by done. unfold _state_dict in Hv.
  rewrite get_map_values in Hv.
  destruct (get (checkpointables m) key); simplify_eq/=; eauto.
Qed.

(** X11.  When [load] has returned, every registered object whose name is
    a key of the file, other than ["iteration"], holds the state dict stored
    under that name, every other registered object is as it was, and
    nothing new is registered. *)
Theorem load_restores_matched path w file r w' :
  disk w !! path = Some file ->
  load path w = Returned r w' ->
  forall name,
    get (checkpointables (self w')) name =
      (fun c => match get (remove "iteration" file) name with
                | Some (VState sd) => restore c sd
                | _ => c
                end) <$> get (checkpointables (self w)) name.
Proof.
  intros Hfile Hrun.
  pose proof (load_returned_loadable _ _ _ _ _ Hfile Hrun) as Hloadable.
  destruct (load_loadable path w file Hfile Hloadable) as (w1 & Hrun1 & Hstates).
  rewrite Hrun1 in Hrun. by injection Hrun as <- <-.
Qed.

(** X12.  After a call to [step] whose metric improved on the recorded one,
    [load] of [checkpoint_best.pth] returns the iteration of that call, not
    [-1], and restores the states the objects had at that call. *)
Theorem load_best_after_improving_step w iteration metric later name c c' :
  improves metric (self w) = true ->
  name <> "iteration" ->
  get (checkpointables (self w)) name = Some c ->
  get later name = Some c' ->
  let w1 := set_checkpointables later (final (step iteration metric w)) in
  exists w2,
    load (best_path (self w)) w1 = Returned (VInt iteration) w2 /\
    get (checkpointables (self w2)) name
    = Some (restore c' (get_state_dict c)).
Proof.
  intros Himproves Hname Hc Hc' w1.
  assert (disk w1 !! best_path (self w) = Some (snapshot iteration (self w)))
    as Hfile.
  { subst w1. simpl. rewrite step_writes_best, step_best_record.
    by rewrite Himproves. }
  destruct (load_loadable _ w1 _ Hfile (snapshot_loadable _ _ _))
    as (w2 & Hrun & Hstates).
  exists w2. split.
  - rewrite Hrun. unfold stored_iteration, pop. simpl.
    by rewrite snapshot_iteration.
  - rewrite Hstates. subst w1. simpl. rewrite Hc'. simpl.
    by rewrite snapshot_get, Hc.
Qed.

(** X13.  While no metric has improved on the initial one the best record
    is empty, and [load] of [checkpoint_best.pth] after such a call to
    [step] returns [-1] and restores nothing. *)
Theorem load_best_without_record w iteration metric :
  _best_ckpt (self w) = [] ->
  improves metric (self w) = false ->
  let w1 := final (step iteration metric w) in
  load (best_path (self w)) w1 = Returned (VInt (-1)) w1.
Proof.
  intros Hempty Hsame w1.
  assert (disk w1 !! best_path (self w)
          = Some ([] : dict (value state_dict))) as Hfile.
  { subst w1. rewrite step_writes_best, step_best_record.
    by rewrite Hsame, Hempty. }
  by rewrite (load_unfold _ _ _ Hfile).
Qed.

End BestFileProperties.

Section ManagerPropertyExamples.
Import Checkpointing.

Lemma step_touches_two_files_witness :
  let w := Examples.fresh 10 in
  let w' := final (step 3 None w) in
  disk w' !! "/tmp/ckpt/notes.txt" = disk w !! "/tmp/ckpt/notes.txt" /\
  checkpointables (self w') = checkpointables (self w) /\
  serialization_dir (self w') = serialization_dir (self w) /\
  keep_recent (self w') = keep_recent (self w).
Proof.
  apply (step_touches_two_files (Examples.fresh 10) 3 None
           "/tmp/ckpt/notes.txt").
  - vm_compute. discriminate.
  - vm_compute. discriminate.
Defined.

Lemma run_queue_holds_most_recent_witness :
  _recent_iterations (self (run Examples.loop (Examples.fresh 2))) = [1; 2].
Proof.
  apply (run_queue_holds_most_recent Examples.loop (Examples.fresh 2)).
  simpl. lia.
Defined.

Lemma step_accepts_keep_recent_calls_witness :
  returns (run_step Examples.loop (Examples.fresh 2)
             (Build_call Examples.trained 3 None))
  = bool_decide (3 < 2).
Proof.
  apply (step_accepts_keep_recent_calls Examples.loop (Examples.fresh 2)
           (Build_call Examples.trained 3 None)).
  reflexivity.
Defined.

Lemma load_twice_witness :
  let w := final (load "/tmp/ckpt/old.pth" Examples.partial_file) in
  load "/tmp/ckpt/old.pth" w = Returned (VInt (-1)) w.
Proof.
  apply (load_twice "/tmp/ckpt/old.pth" Examples.partial_file
           [("model", VState [("weight", 5)])]).
  - reflexivity.
  - vm_compute. reflexivity.
Defined.

Lemma load_restores_matched_witness :
  let w := Examples.partial_file in
  let w' := final (load "/tmp/ckpt/old.pth" w) in
  get (checkpointables (self w')) "model" =
    (fun c => match get (remove "iteration"
                           [("model", VState [("weight", 5)])]) "model" with
              | Some (VState sd) => restore c sd
              | _ => c
              end) <$> get (checkpointables (self w)) "model".
Proof.
  apply (load_restores_matched "/tmp/ckpt/old.pth" Examples.partial_file
           [("model", VState [("weight", 5)])] (VInt (-1))).
  - reflexivity.
  - vm_compute. reflexivity.
Defined.

Lemma load_best_after_improving_step_witness :
  let w := Examples.fresh 10 in
  let w1 :=
    set_checkpointables Examples.trained
      (final (step 4 (Some (Qmake 1 2)) w)) in
  exists w2,
    load (best_path (self w)) w1 = Returned (VInt 4) w2 /\
    get (checkpointables (self w2)) "optimizer"
    = Some (Parallel [("lr", 1)]).
Proof.
  apply (load_best_after_improving_step (Examples.fresh 10) 4
           (Some (Qmake 1 2)) Examples.trained "optimizer"
           (Parallel [("lr", 1)]) (Parallel [("lr", 2)])).
  - reflexivity.
  - discriminate.
  - reflexivity.
  - reflexivity.
Defined.

Lemma load_best_without_record_witness :
  let w := Examples.fresh 10 in
  let w1 := final (step 4 (Some (Qmake (-1) 2)) w) in
  load (best_path (self w)) w1 = Returned (VInt (-1)) w1.
Proof.
  apply (load_best_without_record (Examples.fresh 10) 4 (Some (Qmake (-1) 2))).
  - reflexivity.
  - reflexivity.
Defined.

End ManagerPropertyExamples.

(** ** Further properties of [evaluate] *)

Section EvaluateProperties.
Import Evaluator.
Context {batch metrics : Type}.
Variable forward : model metrics -> batch -> exn + model metrics.
Variable to_device : string -> batch -> batch.
Implicit Types (w : world batch metrics) (m : model metrics).
Implicit Types (models : dict (model metrics)) (num_batches : option Z).

Abbreviation _do_iteration := (_do_iteration forward).
Abbreviation batch_loop := (batch_loop forward to_device).
Abbreviation eval_phase := (eval_phase forward to_device).
Abbreviation evaluate := (evaluate forward to_device).
Abbreviation forward_all := (forward_all forward).

Lemma train_train mode mode' m : train mode (train mode' m) = train mode m.
Proof. induction m as [t g|t g inner IH]; simpl; [done|]. by rewrite IH. Qed.

Lemma train_eval m : train true (eval m) = train true m.
Proof. apply train_train. Qed.

Lemma do_iteration_other b w name :
  name <> "model" ->
  get (_models (self (final (_do_iteration b w)))) name
  = get (_models (self w)) name.
Proof.
  intros Hne. unfold Evaluator._do_iteration. run_monad.
  destruct (get (_models (self w)) "model") as [m|]; [|done].
  destruct (forward m b) as [e|m']; simpl; [done|].
  by apply get_set_ne.
Qed.

(** The loop keeps the loader and the device, and touches no model but the
    one called ["model"]. *)
Lemma batch_loop_frame num_batches iteration batches w :
  let w' := final (batch_loop num_batches iteration batches w) in
  _dataloader (self w') = _dataloader (self w) /\
  _device (self w') = _device (self w) /\
  forall name,
    name <> "model" ->
    get (_models (self w')) name = get (_models (self w)) name.
Proof.
  revert iteration w. induction batches as [|b rest IH]; intros iteration w;
    [done|].
  simpl. run_monad.
  destruct (do_iteration_final forward (to_device (_device (self w)) b) w)
    as (_ & Hloader & Hdevice & _).
  pose proof (do_iteration_other (to_device (_device (self w)) b) w)
    as Hother.
  destruct (_do_iteration _ w) as [[] w1|e w1]; simpl in *; [|done].
  destruct (limit_reached num_batches iteration); simpl; [done|].
  destruct (IH (iteration + 1) w1) as (-> & -> & Hrest).
  repeat split; try done. intros name Hne. by rewrite Hrest, Hother.
Qed.

(** The batches the loop has handed over, whatever its outcome, are a
    prefix of its list, each moved to the device. *)
Lemma batch_loop_prefix num_batches iteration batches w :
  exists k,
    processed (final (batch_loop num_batches iteration batches w))
    = (processed w ++ (to_device (_device (self w)) <$> take k batches))%list.
Proof.
  revert iteration w. induction batches as [|b rest IH]; intros iteration w.
  { exists 0%nat. simpl. by rewrite app_nil_r. }
  simpl. run_monad.
  destruct (do_iteration_final forward (to_device (_device (self w)) b) w)
    as (Hlog & _ & Hdevice & _).
  destruct (_do_iteration _ w) as [[] w1|e w1]; simpl in *;
    [|by exists 1%nat].
  destruct (limit_reached num_batches iteration); simpl; [by exists 1%nat|].
  destruct (IH (iteration + 1) w1) as [k ->]. exists (S k).
  rewrite Hlog, Hdevice. simpl. by rewrite <- app_assoc.
Qed.

(** A loop that runs to its end has handed over the leading batches of its
    list, and the model called ["model"] is what the forward passes over
    them have made of it. *)
Lemma batch_loop_returned num_batches iteration batches w w' :
  batch_loop num_batches iteration batches w = Returned tt w' ->
  let taken :=
    take (match num_batches with
          | Some n => Z.to_nat (Z.max 1 (n - iteration + 2))
          | None => length batches
          end) batches in
  processed w'
  = (processed w ++ (to_device (_device (self w)) <$> taken))%list /\
  forall m,
    get (_models (self w)) "model" = Some m ->
    exists m',
      forward_all m (to_device (_device (self w)) <$> taken) = inr m' /\
      get (_models (self w')) "model" = Some m'.
Proof.
  revert iteration w. induction batches as [|b rest IH]; intros iteration w.
  { simpl. intros [= <-]. rewrite take_nil. simpl. rewrite app_nil_r.
    split; [done|]. intros m Hm. by exists m. }
  simpl. run_monad.
  destruct (do_iteration_final forward (to_device (_device (self w)) b) w)
    as (Hlog & _ & Hdevice & _).
  unfold Evaluator._do_iteration in *. run_monad.
  destruct (get (_models (self w)) "model") as [m|] eqn:Hm; [|done].
  destruct (forward m (to_device (_device (self w)) b)) as [e|m'] eqn:Hfw;
    simpl in *; [done|].
  unfold limit_reached. destruct num_batches as [n|].
  - destruct (Z.gtb_spec iteration n) as [Hgt|Hle].
    + intros [= <-]. replace (Z.to_nat _) with 1%nat by lia.
      simpl. split; [done|]. intros ? [= <-].
      exists m'. simpl. rewrite Hfw. by rewrite get_set_eq.
    + intros Hrest. apply IH in Hrest as [-> Hmodel]. simpl in *.
      replace (Z.to_nat (Z.max 1 (n - iteration + 2)))
        with (S (Z.to_nat (Z.max 1 (n - (iteration + 1) + 2)))) by lia.
      simpl. split; [by rewrite <- app_assoc|]. intros ? [= <-].
      rewrite Hfw. apply Hmodel, get_set_eq.
  - intros Hrest. apply IH in Hrest as [-> Hmodel]. simpl in *.
    split; [by rewrite <- app_assoc|]. intros ? [= <-].
    rewrite Hfw. apply Hmodel, get_set_eq.
Qed.

Lemma eval_phase_unfold num_batches w :
  eval_phase num_batches w =
    batch_loop num_batches 0 (_dataloader (self w))
      (set_models (map_values eval (_models (self w))) w).
Proof. reflexivity. Qed.

(** X14.  When [evaluate] returns, the batches it has handed to
    [_do_iteration] are the leading batches of the loader, in the order of
    the loader, each moved to the device and none twice: all of them
    without a limit, the first [max(1, n + 2)] with [num_batches = n]. *)
Theorem evaluate_takes_leading_batches num_batches w eval_metrics w' :
  evaluate num_batches w = Returned eval_metrics w' ->
  processed w' =
    (processed w
     ++ (to_device (_device (self w))
           <$> take (batches_taken num_batches (_dataloader (self w)))
                 (_dataloader (self w))))%list.
Proof.
  rewrite (evaluate_unfold forward to_device), eval_phase_unfold.
  destruct (batch_loop _ _ _ _) as [[] w1|e w1] eqn:Hloop; [|done].
  intros [= <- <-]. apply batch_loop_returned in Hloop as [Hlog _].
  simpl in *. rewrite Hlog. unfold batches_taken.
  destruct num_batches as [n|]; [|done]. by rewrite Z.sub_0_r.
Qed.

(** X15.  When [evaluate] returns, the model called ["model"] is what the
    forward passes over the batches taken, run one after the other from the
    model in eval mode, have made of it, switched to training mode. *)
Theorem evaluate_runs_forward_in_sequence num_batches w eval_metrics w' m :
  evaluate num_batches w = Returned eval_metrics w' ->
  get (_models (self w)) "model" = Some m ->
  exists m',
    forward_all (eval m)
      (to_device (_device (self w))
         <$> take (batches_taken num_batches (_dataloader (self w)))
               (_dataloader (self w)))
    = inr m' /\
    get (_models (self w')) "model" = Some (train true m').
Proof.
  rewrite (evaluate_unfold forward to_device), eval_phase_unfold.
  destruct (batch_loop _ _ _ _) as [[] w1|e w1] eqn:Hloop; [|done].
  intros [= <- <-] Hm. apply batch_loop_returned in Hloop as [_ Hmodel].
  destruct (Hmodel (eval m)) as (m' & Hforward & Hm').
  { simpl. by rewrite get_map_values, Hm. }
  exists m'. simpl in *. split.
  - rewrite <- Hforward. unfold batches_taken.
    destruct num_batches as [n|]; [|done]. by rewrite Z.sub_0_r.
  - by rewrite get_map_values, Hm'.
Qed.

(** X16.  However [evaluate] ends, what it has handed to [_do_iteration]
    is a prefix of the loader, each batch moved to the device. *)
Theorem evaluate_processes_prefix num_batches w :
  exists k,
    processed (final (evaluate num_batches w)) =
      (processed w
       ++ (to_device (_device (self w)) <$> take k (_dataloader (self w))))%list.
Proof.
  destruct (batch_loop_prefix num_batches 0 (_dataloader (self w))
              (set_models (map_values eval (_models (self w))) w))
    as [k Hprefix].
  exists k. rewrite (evaluate_unfold forward to_device), eval_phase_unfold.
  by destruct (batch_loop _ _ _ _).
Qed.

(** X17.  Without a model called ["model"] and with a batch to process,
    [evaluate] raises [KeyError] at the first batch and leaves every model
    in eval mode. *)
Theorem evaluate_without_model_raises num_batches w b rest :
  get (_models (self w)) "model" = None ->
  _dataloader (self w) = b :: rest ->
  exists w',
    evaluate num_batches w = Raised (KeyError "model") w' /\
    processed w' = (processed w ++ [to_device (_device (self w)) b])%list /\
    forall name,
      get (_models (self w')) name = eval <$> get (_models (self w)) name.
Proof.
  intros Hmodel Hloader.
  rewrite (evaluate_unfold forward to_device), eval_phase_unfold, Hloader.
  simpl. unfold Evaluator._do_iteration. run_monad.
  rewrite get_map_values, Hmodel. simpl. eexists. split; [done|].
  split; [done|]. intros name. simpl. apply get_map_values.
Qed.

(** X18.  With an empty loader [evaluate] returns without a forward pass,
    also when no model is called ["model"]: the mapping holds the metrics
    the models expose as they are, and every model is switched to training
    mode and otherwise unchanged. *)
Theorem evaluate_empty_loader num_batches w :
  _dataloader (self w) = [] ->
  exists eval_metrics w',
    evaluate num_batches w = Returned eval_metrics w' /\
    processed w' = processed w /\
    (forall name,
       get eval_metrics name = get (_models (self w)) name ≫= exposed_metrics) /\
    (forall name,
       get (_models (self w')) name
       = train true <$> get (_models (self w)) name).
Proof.
  intros Hloader.
  rewrite (evaluate_unfold forward to_device), eval_phase_unfold, Hloader.
  simpl. eexists _, _. split; [done|]. split; [done|]. split.
  - intros name. rewrite get_collect_metrics, get_map_values.
    destruct (get (_models (self w)) name) as [m|]; simpl; [|done].
    apply exposed_metrics_train.
  - intros name. simpl. rewrite !get_map_values.
    destruct (get (_models (self w)) name) as [m|]; simpl; [|done].
    by rewrite train_eval.
Qed.

(** X19.  [evaluate] changes nothing of a model that is not called
    ["model"] but its mode: after a call that returns it is the model it
    was, in training mode; after a call that raises, in eval mode. *)
Theorem evaluate_other_models num_batches w name :
  name <> "model" ->
  get (_models (self (final (evaluate num_batches w)))) name =
    (if returns (evaluate num_batches w) then train true else eval)
      <$> get (_models (self w)) name.
Proof.
  intros Hname.
  destruct (batch_loop_frame num_batches 0 (_dataloader (self w))
              (set_models (map_values eval (_models (self w))) w))
    as (_ & _ & Hother).
  specialize (Hother name Hname).
  rewrite (evaluate_unfold forward to_device), eval_phase_unfold.
  destruct (batch_loop _ _ _ _) as [[] w1|e w1]; simpl in *.
  - rewrite get_map_values, Hother, get_map_values.
    destruct (get (_models (self w)) name) as [m|]; simpl; [|done].
    by rewrite train_eval.
  - by rewrite Hother, get_map_values.
Qed.

(** X20.  However [evaluate] ends, the loader and the device are as
    before and the registry has the names it had. *)
Theorem evaluate_keeps_loader_and_names num_batches w :
  let w' := final (evaluate num_batches w) in
  _dataloader (self w') = _dataloader (self w) /\
  _device (self w') = _device (self w) /\
  forall name,
    contains (_models (self w')) name = contains (_models (self w)) name.
Proof.
  destruct (batch_loop_frame num_batches 0 (_dataloader (self w))
              (set_models (map_values eval (_models (self w))) w))
    as (Hloader & Hdevice & _).
  pose proof (eval_phase_contains forward to_device num_batches w) as Hnames.
  rewrite eval_phase_unfold in Hnames.
  rewrite (evaluate_unfold forward to_device), eval_phase_unfold.
  destruct (batch_loop _ _ _ _) as [[] w1|e w1]; simpl in *.
  - repeat split; try done. intros name. rewrite <- Hnames.
    unfold contains. rewrite get_map_values. by destruct (get _ name).
  - by repeat split.
Qed.

(** C8.  Once the loop over the data loader has completed, [evaluate]
    returns, whatever capabilities the models have.  The mapping it returns
    holds, under the name of every model registered at the call other than
    ["model"], the metrics that model exposes, on itself or, for a
    [DataParallel], on its wrapped module, and no entry when it exposes
    none; under ["model"] it holds what the model exposes once the forward
    passes have run; and it has no entry under a name that is not
    registered. *)
Theorem evaluate_metrics_by_capability num_batches w w1 :
  eval_phase num_batches w = Returned tt w1 ->
  exists eval_metrics w',
    evaluate num_batches w = Returned eval_metrics w' /\
    (forall name,
       name <> "model" ->
       get eval_metrics name
       = get (_models (self w)) name ≫= exposed_metrics) /\
    (forall m,
       get (_models (self w)) "model" = Some m ->
       exists m',
         forward_all (eval m)
           (to_device (_device (self w))
              <$> take (batches_taken num_batches (_dataloader (self w)))
                    (_dataloader (self w)))
         = inr m' /\
         get eval_metrics "model" = exposed_metrics m') /\
    (get (_models (self w)) "model" = None ->
     get eval_metrics "model" = None) /\
    (forall name,
       get eval_metrics name
       = get (_models (self w')) name ≫= exposed_metrics).
Proof.
  intros Hphase.
  pose proof (eval_phase_contains forward to_device num_batches w "model")
    as Hnames.
  rewrite (evaluate_unfold forward to_device), Hphase.
  rewrite Hphase in Hnames. simpl in Hnames.
  rewrite eval_phase_unfold in Hphase.
  destruct (batch_loop_frame num_batches 0 (_dataloader (self w))
              (set_models (map_values eval (_models (self w))) w))
    as (_ & _ & Hother).
  rewrite Hphase in Hother. simpl in Hother.
  apply batch_loop_returned in Hphase as [_ Hmodel]. simpl in Hmodel.
  eexists _, _. split; [done|]. repeat split.
  - intros name Hne. rewrite get_collect_metrics, Hother by done.
    rewrite get_map_values.
    destruct (get (_models (self w)) name) as [m|]; simpl; [|done].
    apply exposed_metrics_train.
  - intros m Hm. destruct (Hmodel (eval m)) as (m' & Hforward & Hm').
    { by rewrite get_map_values, Hm. }
    exists m'. split.
    + rewrite <- Hforward. unfold batches_taken.
      destruct num_batches as [n|]; [|done]. by rewrite Z.sub_0_r.
    + by rewrite get_collect_metrics, Hm'.
  - intros Hnone. rewrite get_collect_metrics.
    unfold contains in Hnames. rewrite Hnone in Hnames.
    by destruct (get (_models (self w1)) "model").
  - intros name. rewrite get_collect_metrics. simpl. rewrite get_map_values.
    destruct (get (_models (self w1)) name) as [m1|]; simpl; [|done].
    by rewrite exposed_metrics_train.
Qed.

End EvaluateProperties.

Section EvaluatePropertyExamples.
Import Evaluator.

Abbreviation run_evaluate :=
  (evaluate Examples.accumulate Examples.to_device).

Lemma evaluate_takes_leading_batches_witness :
  processed (final (run_evaluate (Some 1) Examples.evaluator)) = [1; 2; 3].
Proof.
  eapply (evaluate_takes_leading_batches Examples.accumulate
            Examples.to_device (Some 1) Examples.evaluator).
  lazy. reflexivity.
Defined.

Lemma evaluate_runs_forward_in_sequence_witness :
  exists m',
    forward_all Examples.accumulate (eval (NNModule true (Some 0))) [1; 2; 3]
    = inr m' /\
    get (_models (self (final (run_evaluate (Some 1) Examples.evaluator))))
      "model"
    = Some (train true m').
Proof.
  eapply (evaluate_runs_forward_in_sequence Examples.accumulate
            Examples.to_device (Some 1) Examples.evaluator).
  - lazy. reflexivity.
  - reflexivity.
Defined.

Lemma evaluate_without_model_raises_witness :
  let w := Examples.unnamed_evaluator in
  exists w',
    run_evaluate None w = Raised (KeyError "model") w' /\
    processed w' = [1] /\
    forall name,
      get (_models (self w')) name = eval <$> get (_models (self w)) name.
Proof.
  apply (evaluate_without_model_raises Examples.accumulate Examples.to_device
           None Examples.unnamed_evaluator 1 [2]).
  - reflexivity.
  - reflexivity.
Defined.

Lemma evaluate_empty_loader_witness :
  let w := Examples.idle_evaluator in
  exists eval_metrics w',
    run_evaluate (Some 3) w = Returned eval_metrics w' /\
    processed w' = processed w /\
    (forall name,
       get eval_metrics name = get (_models (self w)) name ≫= exposed_metrics) /\
    (forall name,
       get (_models (self w')) name
       = train true <$> get (_models (self w)) name).
Proof.
  apply (evaluate_empty_loader Examples.accumulate Examples.to_device
           (Some 3) Examples.idle_evaluator).
  reflexivity.
Defined.

Lemma evaluate_other_models_witness :
  let w := Examples.evaluator in
  get (_models (self (final (run_evaluate (Some 1) w)))) "frozen" =
    (if returns (run_evaluate (Some 1) w) then train true else eval)
      <$> get (_models (self w)) "frozen".
Proof.
  apply (evaluate_other_models Examples.accumulate Examples.to_device
           (Some 1) Examples.evaluator "frozen").
  discriminate.
Defined.

Lemma evaluate_metrics_by_capability_witness :
  let w := Examples.evaluator in
  exists eval_metrics w',
    run_evaluate (Some 1) w = Returned eval_metrics w' /\
    (forall name,
       name <> "model" ->
       get eval_metrics name
       = get (_models (self w)) name ≫= exposed_metrics) /\
    (forall m,
       get (_models (self w)) "model" = Some m ->
       exists m',
         forward_all Examples.accumulate (eval m)
           (Examples.to_device (_device (self w))
              <$> take (batches_taken (Some 1) (_dataloader (self w)))
                    (_dataloader (self w)))
         = inr m' /\
         get eval_metrics "model" = exposed_metrics m') /\
    (get (_models (self w)) "model" = None ->
     get eval_metrics "model" = None) /\
    (forall name,
       get eval_metrics name
       = get (_models (self w')) name ≫= exposed_metrics).
Proof.
  eapply (evaluate_metrics_by_capability Examples.accumulate
            Examples.to_device (Some 1) Examples.evaluator).
  lazy. reflexivity.
Defined.

End EvaluatePropertyExamples.

(** ** Ties, and the order of the metrics *)

Section BestRecordOrder.
Import Checkpointing.
Context {state_dict : Type}.
Implicit Types (w : world state_dict) (c : call state_dict).
Implicit Types (calls : list (call state_dict)).

(** Training leaves the integers of a dictionary alone, and lets each of
    its state dicts show the state its object has reached. *)
Lemma get_refresh (registry : dict (checkpointable state_dict))
    (ckpt : dict (value state_dict)) name :
  get (refresh registry ckpt) name =
    match get ckpt name with
    | Some (VState sd) =>
        Some (VState (match get registry name with
                      | Some c => get_state_dict c
                      | None => sd
                      end))
    | other => other
    end.
Proof.
  induction ckpt as [|[k v] ckpt IH]; simpl; [done|].
  destruct (decide (name = k)) as [->|Hne].
  - destruct v as [n|sd|]; simpl; [by rewrite decide_True| |by rewrite decide_True].
    destruct (get registry k); simpl; by rewrite decide_True.
  - assert (fst (match v, get registry k with
                 | VState _, Some c => (k, VState (get_state_dict c))
                 | _, _ => (k, v)
                 end) = k) as Hkey
      by (destruct v; [done| |done]; by destruct (get registry k)).
    destruct (match v, get registry k with
              | VState _, Some c => (k, VState (get_state_dict c))
              | _, _ => (k, v)
              end) as [k' v']. simpl in Hkey. subst k'.
    by rewrite decide_False.
Qed.

Lemma get_serialized_iteration c :
  get (serialized c) "iteration" = Some (VInt (call_iteration c)).
Proof. apply get_set_eq. Qed.



(** X21.  Ties keep the earlier call: either no call improved on the
    metric the manager started with, which then bounds every metric passed;
    or the best record holds the iteration of a call whose metric, the
    recorded one, is strictly greater than every metric passed before it
    and at least every metric passed after it. *)
Theorem run_keeps_first_highest calls w :
  (_best_metric (self (run calls w)) = _best_metric (self w) /\
   forall c q,
     c ∈ calls -> call_metric c = Some q -> Qle q (_best_metric (self w)))
  \/
  (exists earlier cb later,
     calls = (earlier ++ cb :: later)%list /\
     call_metric cb = Some (_best_metric (self (run calls w))) /\
     get (_best_ckpt (self (run calls w))) "iteration"
     = Some (VInt (call_iteration cb)) /\
     (forall c q,
        c ∈ earlier -> call_metric c = Some q ->
        Qlt q (_best_metric (self (run calls w)))) /\
     (forall c q,
        c ∈ later -> call_metric c = Some q ->
        Qle q (_best_metric (self (run calls w))))).
Proof.
  induction calls as [|c calls IH] using rev_ind.
  { left. split; [done|]. intros c q Hin. by apply elem_of_nil in Hin. }
  rewrite run_snoc, run_call_best_metric, run_call_best_ckpt.
  destruct (call_metric c) as [q|] eqn:Hq;
    [destruct (Qgt_bool q _) eqn:Hgt|].
  - right. exists calls, c, []. repeat split; try done.
    + apply get_serialized_iteration.
    + intros c' q' Hin Hq'. eapply Qle_lt_trans.
      * by eapply run_best_metric_bound.
      * by apply Qgt_bool_true.
    + intros c' q' Hin. by apply elem_of_nil in Hin.
  - apply Qgt_bool_false in Hgt.
    destruct IH as [(Hmetric & Hbound)
                   |(earlier & cb & later & -> & ? & Hrecord & ? & Hlater)].
    + left. split; [done|]. intros c' q' Hin Hq'.
      apply elem_of_app in Hin as [Hin|Hin%list_elem_of_singleton].
      * by eapply Hbound.
      * subst c'. rewrite Hq in Hq'. injection Hq' as <-.
        by rewrite <- Hmetric.
    + right. exists earlier, cb, (later ++ [c])%list.
      rewrite <- app_assoc. repeat split; try done.
      * by rewrite get_refresh, Hrecord.
      * intros c' q' Hin Hq'.
        apply elem_of_app in Hin as [Hin|Hin%list_elem_of_singleton].
        -- by eapply Hlater.
        -- subst c'. rewrite Hq in Hq'. by injection Hq' as <-.
  - destruct IH as [(Hmetric & Hbound)
                   |(earlier & cb & later & -> & ? & Hrecord & ? & Hlater)].
    + left. split; [done|]. intros c' q' Hin Hq'.
      apply elem_of_app in Hin as [Hin|Hin%list_elem_of_singleton].
      * by eapply Hbound.
      * subst c'. congruence.
    + right. exists earlier, cb, (later ++ [c])%list.
      rewrite <- app_assoc. repeat split; try done.
      * by rewrite get_refresh, Hrecord.
      * intros c' q' Hin Hq'.
        apply elem_of_app in Hin as [Hin|Hin%list_elem_of_singleton].
        -- by eapply Hlater.
        -- subst c'. congruence.
Qed.


End BestRecordOrder.

Section BestRecordExamples.
Import Checkpointing.


End BestRecordExamples.

Section MetricsOrder.
Import Evaluator.
Context {metrics : Type}.
Implicit Types (models : dict (model metrics)).

Lemma keys_set {V} (d : dict V) k v :
  keys (set k v d) = if contains d k then keys d else (keys d ++ [k])%list.
Proof.
  unfold contains. induction d as [|[k' v'] d IH]; simpl; [done|].
  destruct (decide (k = k')) as [->|Hne]; simpl; [done|].
  rewrite IH. by destruct (get d k).
Qed.

Lemma keys_collect model_name m (eval_metrics : dict metrics) :
  model_name ∉ keys eval_metrics ->
  keys (collect model_name m eval_metrics) =
    match exposed_metrics m with
    | Some _ => (keys eval_metrics ++ [model_name])%list
    | None => keys eval_metrics
    end.
Proof.
  intros Hfresh. apply get_None_keys in Hfresh.
  unfold collect, exposed_metrics.
  destruct (get_metrics m) as [v|].
  { rewrite keys_set. unfold contains. by rewrite Hfresh. }
  destruct m as [t g|t g inner]; [done|].
  destruct (get_metrics inner); [|done].
  rewrite keys_set. unfold contains. by rewrite Hfresh.
Qed.

(** X22.  The mapping [evaluate] builds lists the models that expose
    metrics in the order of the registry. *)
Theorem collect_metrics_in_registry_order models :
  NoDup (keys models) ->
  keys (collect_metrics models) =
    filter (fun name => is_Some (get models name ≫= exposed_metrics))
      (keys models).
Proof.
  unfold collect_metrics.
  assert (forall ks (acc : dict metrics),
    NoDup ks -> (forall k, k ∈ ks -> k ∉ keys acc) ->
    keys (fold_left
            (fun eval_metrics model_name =>
               match get models model_name with
               | Some m => collect model_name m eval_metrics
               | None => eval_metrics
               end) ks acc) =
      (keys acc
       ++ filter (fun name => is_Some (get models name ≫= exposed_metrics))
            ks)%list) as Hfold.
  { induction ks as [|key ks IH]; intros acc Hnodup Hfresh.
    { simpl. by rewrite app_nil_r. }
    apply NoDup_cons in Hnodup as [Hkey Hnodup].
    assert (key ∉ keys acc) as Hnew by (apply Hfresh; left).
    cbn [fold_left].
    destruct (get models key) as [m|] eqn:Hm;
      [destruct (exposed_metrics m) as [v|] eqn:Hexposed|].
    - rewrite filter_cons_True by (rewrite Hm; simpl; by rewrite Hexposed).
      rewrite IH; [|done|].
      + rewrite keys_collect, Hexposed by done. by rewrite <- app_assoc.
      + intros k Hin. rewrite keys_collect, Hexposed by done.
        apply not_elem_of_app. split; [apply Hfresh; by right|].
        by intros ->%list_elem_of_singleton.
    - rewrite filter_cons_False
        by (rewrite Hm; simpl; rewrite Hexposed; by intros [? ?]).
      rewrite IH; [|done|].
      + by rewrite keys_collect, Hexposed.
      + intros k Hin. rewrite keys_collect, Hexposed by done.
        apply Hfresh. by right.
    - rewrite filter_cons_False by (rewrite Hm; by intros [? ?]).
      apply IH; [done|]. intros k Hin. apply Hfresh. by right. }
  intros Hnodup. rewrite Hfold; [done|done|].
  intros k _. apply not_elem_of_nil.
Qed.

End MetricsOrder.

Section OrderExamples.

Lemma collect_metrics_in_registry_order_witness :
  keys (Evaluator.collect_metrics
          (Evaluator._models (Evaluator.self Examples.evaluator)))
  = ["model"; "wrapped"].
Proof.
  apply (collect_metrics_in_registry_order
           (Evaluator._models (Evaluator.self Examples.evaluator))).
  apply (bool_decide_unpack (NoDup ["model"; "wrapped"; "frozen"])).
  vm_compute. exact I.
Defined.

End OrderExamples.
